(** * A shallow embedding of the Go modules core of cachi2

    The definitions below follow [cachi2/core/package_managers/gomod.py]:
    the parsed toolchain records, the canonical module and package records,
    module and package creation, the deduplicating merge, the vendoring
    arbiter, the vendor manifest parser, the validation of local
    replacements and the pseudo-version synthesis of the version reifier.
    Filesystem and version-control collaborators that live outside the
    module are either modelled from the specification (the rooted-path
    guard) or taken as section parameters (git, the semver library). *)

From Stdlib Require Import List String Ascii Bool ZArith Lia.
From Stdlib Require Import Numbers.DecimalString.
Import ListNotations.
Open Scope string_scope.
#[local] Set Warnings "-register-all".

(* ------------------------------------------------------------------ *)
(** ** String helpers (Python's [str] methods) *)

(** [s.startswith(p)] *)
Definition startswith (s p : string) : bool := String.prefix p s.

(** [s.removeprefix(p)] *)
Definition removeprefix (s p : string) : string :=
  if String.prefix p s then substring (String.length p) (String.length s - String.length p) s
  else s.

(** Characters for which Python's [str.isspace] holds, restricted to ASCII. *)
Definition is_space (c : ascii) : bool :=
  let n := nat_of_ascii c in
  (n =? 32)%nat || ((9 <=? n) && (n <=? 13))%nat || ((28 <=? n) && (n <=? 31))%nat.

(** [s.split()] with no separator: maximal runs of non-space characters. *)
Fixpoint split_ws_aux (s : string) (cur : string) : list string :=
  match s with
  | EmptyString => if String.eqb cur "" then [] else [cur]
  | String c s' =>
      if is_space c then
        (if String.eqb cur "" then [] else [cur]) ++ split_ws_aux s' ""
      else split_ws_aux s' (cur ++ String c "")
  end.

Definition split_ws (s : string) : list string := split_ws_aux s "".

(** [s.split(c)] with an explicit one-character separator. *)
Fixpoint split_on_aux (c : ascii) (s : string) (cur : string) : list string :=
  match s with
  | EmptyString => [cur]
  | String d s' =>
      if Ascii.eqb c d then cur :: split_on_aux c s' ""
      else split_on_aux c s' (cur ++ String d "")
  end.

Definition split_on (c : ascii) (s : string) : list string := split_on_aux c s "".

(** [sep.join(xs)] *)
Fixpoint join_with (sep : string) (xs : list string) : string :=
  match xs with
  | [] => ""
  | [x] => x
  | x :: xs' => x ++ sep ++ join_with sep xs'
  end.

(** Python's [str(n)] for a natural number. *)
Definition nat_to_string (n : nat) : string :=
  NilEmpty.string_of_uint (Nat.to_uint n).

(** Python truthiness of an optional string ([None] and [""] are falsy). *)
Definition truthy (o : option string) : option string :=
  match o with
  | Some v => if String.eqb v "" then None else Some v
  | None => None
  end.

(* ------------------------------------------------------------------ *)
(** ** Errors raised by the core *)

Inductive error :=
| PathOutsideRoot (msg : string) (solution : string)
| UnexpectedFormat (msg : string)
| PackageRejected (reason : string)
| RuntimeError (msg : string)
| KeyError (key : string)
| ValueError (msg : string).

Inductive result (A : Type) :=
| Ok (a : A)
| Err (e : error).
Arguments Ok {A} a.
Arguments Err {A} e.

Definition bind {A B} (r : result A) (f : A -> result B) : result B :=
  match r with Ok a => f a | Err e => Err e end.

Notation "x <- r ;; k" := (bind r (fun x => k)) (at level 61, r at next level, right associativity).

Fixpoint map_result {A B} (f : A -> result B) (l : list A) : result (list B) :=
  match l with
  | [] => Ok []
  | x :: xs => y <- f x ;; ys <- map_result f xs ;; Ok (y :: ys)
  end.

(* ------------------------------------------------------------------ *)
(** ** The rooted-path guard *)

(** Modelled from the spec: [RootedPath.join_within_root] (module
    [cachi2.core.rooted_path], not part of the sources at hand). A rooted
    path is a root and a path below it, both absolute and given by their
    segments. Joining appends the segments of the relative path (an
    absolute path restarts from the filesystem root), resolves [.] and
    [..] (a [..] at the filesystem root stays there) and rejects the
    result with [PathOutsideRoot] when it is not a descendant of the
    root. Symbolic links are not modelled: resolution is lexical. *)
Record RootedPath := mkRootedPath { rp_root : list string; rp_path : list string }.

Fixpoint resolve_segments (acc : list string) (segs : list string) : list string :=
  match segs with
  | [] => acc
  | s :: segs' =>
      if String.eqb s "" || String.eqb s "." then resolve_segments acc segs'
      else if String.eqb s ".." then resolve_segments (removelast acc) segs'
      else resolve_segments (acc ++ [s]) segs'
  end.

Fixpoint is_prefix_of (p l : list string) : bool :=
  match p, l with
  | [], _ => true
  | x :: p', y :: l' => String.eqb x y && is_prefix_of p' l'
  | _ :: _, [] => false
  end.

Definition join_within_root (rp : RootedPath) (rel : string) : result RootedPath :=
  let start := if startswith rel "/" then [] else rp_path rp in
  let resolved := resolve_segments start (split_on "/" rel) in
  if is_prefix_of (rp_root rp) resolved then Ok (mkRootedPath (rp_root rp) resolved)
  else Err (PathOutsideRoot ("path " ++ rel ++ " is outside the root") "").

(* ------------------------------------------------------------------ *)
(** ** Parsed toolchain records and canonical records *)

(** [ParsedModule]: [path], optional [version], [main], optional [replace]. *)
Inductive ParsedModule := mkParsedModule {
  pm_path : string;
  pm_version : option string;
  pm_main : bool;
  pm_replace : option ParsedModule
}.

(** [ParsedPackage]: [import_path], [standard], optional [module]. *)
Record ParsedPackage := mkParsedPackage {
  pp_import_path : string;
  pp_standard : bool;
  pp_module : option ParsedModule
}.

(** [Module] (a NamedTuple). *)
Record Module := mkModule {
  m_name : string;
  m_original_name : string;
  m_real_path : string;
  m_version : string;
  m_main : bool
}.

(** [Package]: relative path and parent module. *)
Record Package := mkPackage {
  p_relative_path : string;
  p_module : Module
}.

(** [StandardPackage]: a name only. *)
Record StandardPackage := mkStandardPackage { sp_name : string }.

Inductive AnyPackage :=
| APackage (p : Package)
| AStandard (s : StandardPackage).

(** [Package.real_path]: the module's real path, extended by the relative
    path when that is non-empty; it is the purl name of the package. *)
Definition package_real_path (p : Package) : string :=
  if String.eqb (p_relative_path p) "" then m_real_path (p_module p)
  else m_real_path (p_module p) ++ "/" ++ p_relative_path p.

(** [Package.name] *)
Definition package_name (p : Package) : string :=
  if String.eqb (p_relative_path p) "" then m_name (p_module p)
  else m_name (p_module p) ++ "/" ++ p_relative_path p.

(** [os.path.normpath] on POSIX paths. *)
Fixpoint normpath_comps (initial_slashes : bool) (acc : list string) (comps : list string)
  : list string :=
  match comps with
  | [] => acc
  | c :: cs =>
      if String.eqb c "" || String.eqb c "." then normpath_comps initial_slashes acc cs
      else if negb (String.eqb c "..")
              || (negb initial_slashes && match acc with [] => true | _ => false end)
              || match rev acc with ".." :: _ => true | _ => false end
      then normpath_comps initial_slashes (acc ++ [c]) cs
      else normpath_comps initial_slashes (removelast acc) cs
  end.

Definition normpath (path : string) : string :=
  if String.eqb path "" then "." else
  let slashes :=
    if startswith path "/" then
      (if startswith path "//" && negb (startswith path "///") then "//" else "/")
    else "" in
  let comps := normpath_comps (negb (String.eqb slashes "")) [] (split_on "/" path) in
  let res := slashes ++ join_with "/" comps in
  if String.eqb res "" then "." else res.

(** [pathlib.PurePosixPath(s).parts]: a leading [/] becomes the root part,
    empty and [.] segments are dropped. *)
Definition path_parts (s : string) : list string :=
  let segs := filter (fun seg => negb (String.eqb seg "" || String.eqb seg "."))
                     (split_on "/" s) in
  if startswith s "/" then "/" :: segs else segs.

(** [str(PurePosixPath(p1, p2, ...))] *)
Definition path_str (parts : list string) : string :=
  match parts with
  | [] => "."
  | p :: rest => if String.eqb p "/" then "/" ++ join_with "/" rest else join_with "/" parts
  end.

(** [PurePosixPath(p).relative_to(other)]; [None] is the [ValueError]. *)
Fixpoint strip_parts (pre l : list string) : option (list string) :=
  match pre, l with
  | [], _ => Some l
  | x :: pre', y :: l' => if String.eqb x y then strip_parts pre' l' else None
  | _ :: _, [] => None
  end.

Definition relative_to (p other : string) : option (list string) :=
  strip_parts (path_parts other) (path_parts p).

(** [PurePosixPath(p).is_relative_to(other)] *)
Definition is_relative_to (p other : string) : bool :=
  match relative_to p other with Some _ => true | None => false end.

(* ------------------------------------------------------------------ *)
(** ** Python dicts keyed by strings, in insertion order *)

(** [d[k] = v]: overwrite in place, or append a new key. *)
Fixpoint dict_set {V} (d : list (string * V)) (k : string) (v : V) : list (string * V) :=
  match d with
  | [] => [(k, v)]
  | (k', v') :: d' => if String.eqb k k' then (k, v) :: d' else (k', v') :: dict_set d' k v
  end.

Fixpoint dict_get {V} (d : list (string * V)) (k : string) : option V :=
  match d with
  | [] => None
  | (k', v') :: d' => if String.eqb k k' then Some v' else dict_get d' k
  end.

(* ------------------------------------------------------------------ *)
(** ** [_create_modules_from_parsed_data] *)

Section CreateModules.

(** [_get_golang_version(module_name, app_dir)]: the version reifier,
    which reads the git repository of the replacement directory. *)
Variable golang_version : string -> RootedPath -> string.

(** [_create_module] *)
Definition create_module (main_module : Module) (main_module_dir : RootedPath)
    (module : ParsedModule) : result Module :=
  match pm_replace module with
  | None =>
      let name := pm_path module in
      let version := match pm_version module with Some v => v | None => "" end in
      Ok (mkModule name name name version false)
  | Some replace =>
      match truthy (pm_version replace) with
      | Some v =>
          (* module/name v1.0.0 => replace/name v1.2.3 *)
          let name := pm_path replace in
          Ok (mkModule name (pm_path module) name v false)
      | None =>
          (* module/name v1.0.0 => ./local/path *)
          let name := pm_path module in
          resolved <- join_within_root main_module_dir (pm_path replace) ;;
          let version := golang_version name resolved in
          let real_path := normpath (m_real_path main_module ++ "/" ++ pm_path replace) in
          Ok (mkModule name name real_path version false)
      end
  end.

Definition create_modules_from_parsed_data (main_module : Module)
    (main_module_dir : RootedPath) (parsed_modules : list ParsedModule) : result (list Module) :=
  map_result (create_module main_module main_module_dir) parsed_modules.

End CreateModules.

(* ------------------------------------------------------------------ *)
(** ** [_create_packages_from_parsed_data] *)

(** [max(keys, key=len, default=None)]: the first key of maximal length. *)
Definition max_by_len (keys : list string) : option string :=
  fold_left (fun best k =>
               match best with
               | None => Some k
               | Some b => if (String.length b <? String.length k)%nat then Some k else Some b
               end) keys None.

Definition index_modules (modules : list Module) : list (string * Module) :=
  fold_left (fun d m => dict_set d (m_original_name m) m) modules [].

(** [_find_parent_module_by_name] *)
Definition find_parent_module_by_name (indexed : list (string * Module))
    (package : ParsedPackage) : result Module :=
  let candidates := filter (is_relative_to (pp_import_path package)) (map fst indexed) in
  match truthy (max_by_len candidates) with
  | None => Err (RuntimeError "Package parent module was not found")
  | Some matched =>
      match dict_get indexed matched with
      | Some m => Ok m
      | None => Err (KeyError matched)
      end
  end.

(** [_resolve_package_relative_path] *)
Definition resolve_package_relative_path (package : ParsedPackage) (module : Module)
  : result string :=
  match relative_to (pp_import_path package) (m_original_name module) with
  | Some rel => Ok (removeprefix (path_str rel) ".")
  | None => Err (ValueError (pp_import_path package))
  end.

(** [_create_package] *)
Definition create_package (indexed : list (string * Module)) (package : ParsedPackage)
  : result AnyPackage :=
  if pp_standard package then Ok (AStandard (mkStandardPackage (pp_import_path package)))
  else
    module <- match pp_module package with
              | None => find_parent_module_by_name indexed package
              | Some pm =>
                  match dict_get indexed (pm_path pm) with
                  | Some m => Ok m
                  | None => Err (KeyError (pm_path pm))
                  end
              end ;;
    relative_path <- resolve_package_relative_path package module ;;
    Ok (APackage (mkPackage relative_path module)).

Definition create_packages_from_parsed_data (modules : list Module)
    (parsed_packages : list ParsedPackage) : result (list AnyPackage) :=
  map_result (create_package (index_modules modules)) parsed_packages.

(** Go's rule for the elements of module and import paths, used to state
    which paths the toolchain can report: every [/]-separated element is
    non-empty and does not begin with a dot. *)
Definition go_path_ok (s : string) : bool :=
  forallb (fun seg => negb (String.eqb seg "") && negb (startswith seg "."))
          (split_on "/" s).

(* ------------------------------------------------------------------ *)
(** ** [_deduplicate_resolved_modules] *)

Definition Key := (string * option string)%type.

Definition key_eqb (a b : Key) : bool :=
  String.eqb (fst a) (fst b) &&
  match snd a, snd b with
  | Some x, Some y => String.eqb x y
  | None, None => true
  | _, _ => false
  end.

(** [get_unique_key] *)
Definition get_unique_key (module : ParsedModule) : Key :=
  match pm_replace module with
  | None => (pm_path module, pm_version module)
  | Some replace =>
      match truthy (pm_version replace) with
      | Some _ => (pm_path replace, pm_version replace)
      | None => (pm_path module, Some (pm_path replace))
      end
  end.

(** The loop of [setdefault] calls over the chained iterables. *)
Fixpoint setdefault_all (d : list (Key * ParsedModule)) (l : list ParsedModule)
  : list (Key * ParsedModule) :=
  match l with
  | [] => d
  | m :: l' =>
      if existsb (key_eqb (get_unique_key m)) (map fst d) then setdefault_all d l'
      else setdefault_all (d ++ [(get_unique_key m, m)]) l'
  end.

Definition deduplicate_resolved_modules (package_modules downloaded_modules : list ParsedModule)
  : list ParsedModule :=
  map snd (setdefault_all [] (package_modules ++ downloaded_modules)).

(* ------------------------------------------------------------------ *)
(** ** The filesystem below the application directory *)

(** What a path (given by its absolute segments) is on disk. *)
Inductive FsEntry := Absent | Dir | File.

Definition fs_exists (e : FsEntry) : bool :=
  match e with Absent => false | _ => true end.

Definition fs_is_dir (e : FsEntry) : bool :=
  match e with Dir => true | _ => false end.

(** [x in flags] for a list of strings. *)
Definition mem (x : string) (l : list string) : bool := existsb (String.eqb x) l.

(* ------------------------------------------------------------------ *)
(** ** [_should_vendor_deps] *)

(** A double quote character. *)
Definition dq : string := String (ascii_of_nat 34) EmptyString.

Definition vendor_flags_required_reason : string :=
  "The " ++ dq ++ "gomod-vendor" ++ dq ++ " or " ++ dq ++ "gomod-vendor-check" ++ dq ++
  " flag must be set when your repository has vendored dependencies.".

Definition should_vendor_deps (flags : list string) (app_dir : RootedPath)
    (fs : list string -> FsEntry) (strict : bool) : result (bool * bool) :=
  vendor <- join_within_root app_dir "vendor" ;;
  let entry := fs (rp_path vendor) in
  if mem "gomod-vendor-check" flags then Ok (true, negb (fs_exists entry))
  else if mem "gomod-vendor" flags then Ok (true, true)
  else if strict && fs_is_dir entry then Err (PackageRejected vendor_flags_required_reason)
  else Ok (false, false).

(* ------------------------------------------------------------------ *)
(** ** [_parse_vendor] *)

(** Python's [repr] of a string without quotes or backslashes. *)
Definition py_repr (s : string) : string := "'" ++ s ++ "'".

(** [parse_module_line], once the line is split into its parts. *)
Definition parse_module_parts (line : string) (parts : list string) : result ParsedModule :=
  match parts with
  | [name; version] =>
      (* name version *)
      Ok (mkParsedModule name (Some version) false None)
  | [name; arrow; path] =>
      (* name => path *)
      if String.eqb arrow "=>" then Ok (mkParsedModule name None false
                                          (Some (mkParsedModule path None false None)))
      else Err (UnexpectedFormat ("vendor/modules.txt: unexpected module line format: " ++ py_repr line))
  | [name; p1; p2; p3] =>
      if String.eqb p1 "=>" then
        (* name => new_name new_version *)
        Ok (mkParsedModule name None false (Some (mkParsedModule p2 (Some p3) false None)))
      else if String.eqb p2 "=>" then
        (* name version => path *)
        Ok (mkParsedModule name (Some p1) false (Some (mkParsedModule p3 None false None)))
      else Err (UnexpectedFormat ("vendor/modules.txt: unexpected module line format: " ++ py_repr line))
  | [name; version; arrow; new_name; new_version] =>
      if String.eqb arrow "=>" then
        (* name version => new_name new_version *)
        Ok (mkParsedModule name (Some version) false
              (Some (mkParsedModule new_name (Some new_version) false None)))
      else Err (UnexpectedFormat ("vendor/modules.txt: unexpected module line format: " ++ py_repr line))
  | _ => Err (UnexpectedFormat ("vendor/modules.txt: unexpected module line format: " ++ py_repr line))
  end.

Definition parse_module_line (line : string) : result ParsedModule :=
  parse_module_parts line (split_ws (removeprefix line "# ")).

(** [module_has_packages[-1] = True] *)
Fixpoint set_last (l : list bool) : list bool :=
  match l with
  | [] => []
  | [_] => [true]
  | x :: l' => x :: set_last l'
  end.

(** The [for line in ...splitlines()] loop, threading [modules] and
    [module_has_packages]. *)
Fixpoint parse_vendor_loop (modules : list ParsedModule) (module_has_packages : list bool)
    (lines : list string) : result (list ParsedModule * list bool) :=
  match lines with
  | [] => Ok (modules, module_has_packages)
  | line :: rest =>
      if startswith line "# " then (* module line *)
        m <- parse_module_line line ;;
        parse_vendor_loop (modules ++ [m]) (module_has_packages ++ [false]) rest
      else if negb (startswith line "#") then (* package line *)
        match modules with
        | [] => Err (UnexpectedFormat ("vendor/modules.txt: package has no parent module: " ++ line))
        | _ => parse_vendor_loop modules (set_last module_has_packages) rest
        end
      else if negb (startswith line "##") then (* marker line *)
        Err (UnexpectedFormat ("vendor/modules.txt: unexpected format: " ++ py_repr line))
      else parse_vendor_loop modules module_has_packages rest
  end.

(** [(module for module, has_packages in zip(...) if has_packages)] *)
Definition emitted (modules : list ParsedModule) (has : list bool) : list ParsedModule :=
  map fst (filter snd (combine modules has)).

(** The parse of the lines of an existing [vendor/modules.txt]. *)
Definition parse_vendor_lines (lines : list string) : result (list ParsedModule) :=
  st <- parse_vendor_loop [] [] lines ;;
  Ok (emitted (fst st) (snd st)).

(** [_parse_vendor]: [read p] is [None] when nothing exists at [p], and
    the [splitlines()] of its text otherwise. *)
Definition parse_vendor (module_dir : RootedPath) (read : list string -> option (list string))
  : result (list ParsedModule) :=
  modules_txt <- join_within_root module_dir "vendor/modules.txt" ;;
  match read (rp_path modules_txt) with
  | None => Ok []
  | Some lines => parse_vendor_lines lines
  end.

(** [_vendor_deps]: [run_vendor] is the outcome of [go mod vendor] and
    [vendor_changed] the answer of [_vendor_changed]. *)
Definition vendor_deps (app_dir : RootedPath) (can_make_changes : bool)
    (run_vendor : result unit) (vendor_changed : bool)
    (read : list string -> option (list string)) : result (list ParsedModule) :=
  _ <- run_vendor ;;
  if negb can_make_changes && vendor_changed then
    Err (PackageRejected "The content of the vendor directory is not consistent with go.mod. Please check the logs for more details.")
  else parse_vendor app_dir read.

(** The manifest as the specification describes it: the line shapes of a
    module line, and the blocks formed by each module line with the
    lines that follow it up to the next module line. *)
Definition module_shape_ok (parts : list string) : bool :=
  match parts with
  | [_; _] => true                                   (* name version *)
  | [_; a; _] => String.eqb a "=>"                    (* name => path *)
  | [_; a; b; _] => String.eqb a "=>" || String.eqb b "=>"
      (* name => new_name new_version, name version => path *)
  | [_; _; b; _; _] => String.eqb b "=>"              (* name version => new_name new_version *)
  | _ => false
  end.

Definition is_module_line (line : string) : bool := startswith line "# ".
Definition is_package_line (line : string) : bool := negb (startswith line "#").

(** A line is acceptable when it is a module line of one of the shapes,
    a marker line ([##]) or a package line. *)
Definition manifest_line_ok (line : string) : bool :=
  if is_module_line line then module_shape_ok (split_ws (removeprefix line "# "))
  else if startswith line "#" then startswith line "##"
  else true.

(** The lines before the first module line, and the blocks. *)
Fixpoint manifest_blocks (lines : list string) : list string * list (string * list string) :=
  match lines with
  | [] => ([], [])
  | l :: ls =>
      let (pre, bs) := manifest_blocks ls in
      if is_module_line l then ([], (l, pre) :: bs) else (l :: pre, bs)
  end.

Definition manifest_ok (lines : list string) : bool :=
  forallb manifest_line_ok lines &&
  negb (existsb is_package_line (fst (manifest_blocks lines))).

(** The modules of the blocks that hold at least one package line. *)
Definition manifest_modules (lines : list string) : list ParsedModule :=
  flat_map (fun b => if existsb is_package_line (snd b) then
                       match parse_module_line (fst b) with Ok m => [m] | Err _ => [] end
                     else [])
           (snd (manifest_blocks lines)).

(* ------------------------------------------------------------------ *)
(** ** [_validate_local_replacements] *)

Definition local_replacement_solution (name path : string) : string :=
  "The module '" ++ name ++ "' is being replaced by the local path '" ++ path ++
  "', which falls outside of the repository root. Refusing to proceed.".

Definition validate_local_replacements (modules : list ParsedModule) (app_path : RootedPath)
  : result unit :=
  let replaced_paths :=
    flat_map (fun m => match pm_replace m with
                       | Some r => if startswith (pm_path r) "." then [(pm_path m, pm_path r)] else []
                       | None => []
                       end) modules in
  fold_left (fun acc np =>
               _ <- acc ;;
               match join_within_root app_path (snd np) with
               | Ok _ => Ok tt
               | Err (PathOutsideRoot msg _) =>
                   Err (PathOutsideRoot msg (local_replacement_solution (fst np) (snd np)))
               | Err e => Err e
               end) replaced_paths (Ok tt).

(* ------------------------------------------------------------------ *)
(** ** The major version in a module name ([_get_golang_version]) *)

Definition is_digit (c : ascii) : bool :=
  let n := nat_of_ascii c in ((48 <=? n) && (n <=? 57))%nat.

(** [int(digits)] for a run of decimal digits (leading zeros allowed). *)
Definition decimal_value (ds : list ascii) : nat :=
  fold_left (fun acc c => acc * 10 + (nat_of_ascii c - 48))%nat ds 0%nat.

(** The maximal run of digits at the head of a list. *)
Fixpoint take_digits (r : list ascii) : list ascii * list ascii :=
  match r with
  | c :: r' =>
      if is_digit c then let (ds, rest) := take_digits r' in (c :: ds, rest) else ([], r)
  | [] => ([], [])
  end.

(** [re.match(r"(?:.+/v)(?P<major_version>\d+)$", module_name)] and
    [int(...)] of the group. The name is read backwards: [$] also matches
    before a final newline; the group is the maximal run of trailing
    digits, preceded by [/v] and by at least one character other than a
    newline (what [.+] accepts). Only ASCII digits are modelled. *)
Definition module_major_version (module_name : string) : option nat :=
  let r := rev (list_ascii_of_string module_name) in
  let r := match r with c :: r' => if Ascii.eqb c "010"%char then r' else r | [] => r end in
  let (ds, rest) := take_digits r in
  match ds, rest with
  | _ :: _, v :: sl :: pre =>
      if Ascii.eqb v "v"%char && Ascii.eqb sl "/"%char && negb (Nat.eqb (List.length pre) 0)
         && negb (existsb (Ascii.eqb "010"%char) pre)
      then Some (decimal_value (rev ds)) else None
  | _, _ => None
  end.

(** [major_versions_to_try] *)
Definition major_versions_to_try (module_name : string) : list nat :=
  match module_major_version module_name with
  | Some n => if (n =? 0)%nat then [1; 0]%nat else [n]
  | None => [1; 0]%nat
  end.

(* ------------------------------------------------------------------ *)
(** ** Pseudo-version synthesis ([_get_golang_pseudo_version]) *)

(** The commit fields read: [hexsha] and [committed_date] (seconds since
    the epoch). *)
Record Commit := mkCommit { hexsha : string; committed_date : Z }.

(** [semver.Version]: major, minor, patch, optional prerelease and build. *)
Record SemVer := mkSemVer {
  sv_major : nat; sv_minor : nat; sv_patch : nat;
  sv_prerelease : option string; sv_build : option string
}.

(** [str(Version)] *)
Definition semver_str (v : SemVer) : string :=
  nat_to_string (sv_major v) ++ "." ++ nat_to_string (sv_minor v) ++ "." ++
  nat_to_string (sv_patch v) ++
  match truthy (sv_prerelease v) with Some p => "-" ++ p | None => "" end ++
  match truthy (sv_build v) with Some b => "+" ++ b | None => "" end.

(** [Version.bump_patch()]: a new version from major, minor and patch + 1
    only, so prerelease and build metadata are dropped. *)
Definition bump_patch (v : SemVer) : SemVer :=
  mkSemVer (sv_major v) (sv_minor v) (S (sv_patch v)) None None.

(** [s.replace(old, new)] for a non-empty [old]: all non-overlapping
    occurrences, left to right. *)
Fixpoint replace_all_fuel (fuel : nat) (old new s : string) : string :=
  match fuel with
  | O => s
  | S fuel' =>
      match s with
      | EmptyString => EmptyString
      | String c s' =>
          if String.prefix old s then
            new ++ replace_all_fuel fuel' old new
                      (substring (String.length old) (String.length s - String.length old) s)
          else String c (replace_all_fuel fuel' old new s')
      end
  end.

Definition str_replace (s old new : string) : string :=
  replace_all_fuel (String.length s) old new s.

(** Two-digit zero padding ([%m], [%d], [%H], [%M], [%S]). *)
Definition pad2 (n : Z) : string :=
  if (n <? 10)%Z then "0" ++ nat_to_string (Z.to_nat n) else nat_to_string (Z.to_nat n).

(** Proleptic Gregorian date of a day count since 1970-01-01. *)
Definition civil_from_days (days : Z) : Z * Z * Z :=
  let z := (days + 719468)%Z in
  let era := (z / 146097)%Z in
  let doe := (z - era * 146097)%Z in
  let yoe := ((doe - doe / 1460 + doe / 36524 - doe / 146096) / 365)%Z in
  let y := (yoe + era * 400)%Z in
  let doy := (doe - (365 * yoe + yoe / 4 - yoe / 100))%Z in
  let mp := ((5 * doy + 2) / 153)%Z in
  let d := (doy - (153 * mp + 2) / 5 + 1)%Z in
  let m := if (mp <? 10)%Z then (mp + 3)%Z else (mp - 9)%Z in
  ((if (m <=? 2)%Z then (y + 1)%Z else y), m, d).

(** [datetime.utcfromtimestamp(t).strftime("%Y%m%d%H%M%S")] for years
    from 1 to 9999 ([%Y] is not padded, as with the C library of Linux). *)
Definition utc_timestamp (t : Z) : string :=
  let days := (t / 86400)%Z in
  let secs := (t mod 86400)%Z in
  let '(y, m, d) := civil_from_days days in
  nat_to_string (Z.to_nat y) ++ pad2 m ++ pad2 d ++
  pad2 (secs / 3600)%Z ++ pad2 ((secs mod 3600) / 60)%Z ++ pad2 (secs mod 60)%Z.

Section PseudoVersion.

(** [semver.version.Version.parse]; [None] is its [ValueError]. *)
Variable parse_semver : string -> option SemVer.

(** [_get_semantic_version_from_tag] *)
Definition get_semantic_version_from_tag (tag_name : string) (subpath : option string)
  : option SemVer :=
  let semantic_version :=
    match truthy subpath with
    | Some sp => str_replace tag_name (sp ++ "/v") ""
    | None => substring 1 (String.length tag_name - 1) tag_name
    end in
  parse_semver semantic_version.

(** [_get_golang_pseudo_version]; the tag is given by its name. *)
Definition get_golang_pseudo_version (commit : Commit) (tag : option string)
    (module_major_version : option nat) (subpath : option string) : result string :=
  let commit_timestamp := utc_timestamp (committed_date commit) in
  let commit_hash := substring 0 12 (hexsha commit) in
  match tag with
  | None =>
      let major := match module_major_version with
                   | Some n => if (n =? 0)%nat then "0" else nat_to_string n
                   | None => "0"
                   end in
      Ok ("v" ++ major ++ ".0.0-" ++ commit_timestamp ++ "-" ++ commit_hash)
  | Some tag_name =>
      match get_semantic_version_from_tag tag_name subpath with
      | None => Err (ValueError tag_name)
      | Some tag_semantic_version =>
          let '(version_seperator, pseudo_semantic_version) :=
            if truthy (sv_prerelease tag_semantic_version) then (".", tag_semantic_version)
            else ("-", bump_patch tag_semantic_version) in
          Ok ("v" ++ semver_str pseudo_semantic_version ++ version_seperator ++ "0." ++
              commit_timestamp ++ "-" ++ commit_hash)
      end
  end.

End PseudoVersion.

(** A parser for [MAJOR.MINOR.PATCH[-PRERELEASE][+BUILD]] used to run the
    examples: numbers without leading zeros, non-empty prerelease and
    build parts (their characters are not checked). *)
Definition parse_num (s : string) : option nat :=
  let cs := list_ascii_of_string s in
  match cs with
  | [] => None
  | c :: rest =>
      if forallb is_digit cs && negb (Ascii.eqb c "0"%char && negb (Nat.eqb (List.length rest) 0))
      then Some (decimal_value cs) else None
  end.

Fixpoint split_first (c : ascii) (s : string) : string * option string :=
  match s with
  | EmptyString => (EmptyString, None)
  | String d s' =>
      if Ascii.eqb c d then (EmptyString, Some s')
      else let (a, b) := split_first c s' in (String d a, b)
  end.

Definition parse_semver_example (s : string) : option SemVer :=
  let (rest, build) := split_first "+" s in
  let (core, pre) := split_first "-" rest in
  match split_on "." core, pre, build with
  | [a; b; c], _, _ =>
      match parse_num a, parse_num b, parse_num c with
      | Some x, Some y, Some z =>
          if (match pre with Some "" => true | _ => false end) ||
             (match build with Some "" => true | _ => false end)
          then None else Some (mkSemVer x y z pre build)
      | _, _, _ => None
      end
  | _, _, _ => None
  end.

(** A version order for the examples: by major, minor and patch (the
    pre-release and build parts are not compared). *)
Definition core_key (v : SemVer) : nat := sv_major v * (1000 * 1000) + sv_minor v * 1000 + sv_patch v.
Definition core_gt (a b : SemVer) : bool := Nat.ltb (core_key b) (core_key a).

(* ------------------------------------------------------------------ *)
(** ** Field aliases of the parsed records ([_ParsedModel.Config]) *)

(** [str.upper] and [str.lower] on one ASCII character. *)
Definition char_upper (c : ascii) : ascii :=
  let n := nat_of_ascii c in
  if ((97 <=? n) && (n <=? 122))%nat then ascii_of_nat (n - 32) else c.

Definition char_lower (c : ascii) : ascii :=
  let n := nat_of_ascii c in
  if ((65 <=? n) && (n <=? 90))%nat then ascii_of_nat (n + 32) else c.

Fixpoint str_lower (s : string) : string :=
  match s with
  | EmptyString => EmptyString
  | String c s' => String (char_lower c) (str_lower s')
  end.

(** [word.capitalize()]: the first character upper-cased, the others
    lower-cased (ASCII letters only). *)
Definition capitalize (w : string) : string :=
  match w with
  | EmptyString => EmptyString
  | String c w' => String (char_upper c) (str_lower w')
  end.

(** [alias_generator]: ["".join(word.capitalize() for word in attr_name.split("_"))] *)
Definition alias_generator (attr_name : string) : string :=
  String.concat "" (map capitalize (split_on "_" attr_name)).

(* ------------------------------------------------------------------ *)
(** ** The path below the root *)

(** Modelled from the spec: [RootedPath.subpath_from_root], the path
    relative to the root ([None] when it is not below the root, which a
    rooted path never is). *)
Definition subpath_from_root (rp : RootedPath) : option (list string) :=
  strip_parts (rp_root rp) (rp_path rp).

(* ------------------------------------------------------------------ *)
(** ** [_create_main_module_from_parsed_data] *)

Definition create_main_module_from_parsed_data (main_module_dir : RootedPath)
    (repo_name : string) (parsed_main_module : ParsedModule) : result Module :=
  match subpath_from_root main_module_dir with
  | None => Err (ValueError "path is not below the root")
  | Some sub =>
      let resolved_subpath := path_str sub in
      let resolved_path :=
        if String.eqb resolved_subpath "." then repo_name
        else repo_name ++ "/" ++ resolved_subpath in
      match truthy (pm_version parsed_main_module) with
      | None =>
          (* Should not happen, since the version is always resolved from the Git repo *)
          Err (RuntimeError ("Version was not identified for main module at " ++ resolved_subpath))
      | Some version =>
          Ok (mkModule (pm_path parsed_main_module) (pm_path parsed_main_module)
                       resolved_path version false)
      end
  end.

(* ------------------------------------------------------------------ *)
(** ** [_get_repository_name] *)

(** [s.rstrip("/")] *)
Fixpoint drop_slashes (l : list ascii) : list ascii :=
  match l with
  | c :: l' => if Ascii.eqb c "/"%char then drop_slashes l' else l
  | [] => []
  end.

Definition rstrip_slash (s : string) : string :=
  string_of_list_ascii (rev (drop_slashes (rev (list_ascii_of_string s)))).

(** [s.removesuffix(suffix)] *)
Definition removesuffix (s suffix : string) : string :=
  let ls := list_ascii_of_string s in
  let k := (List.length ls - String.length suffix)%nat in
  if negb (String.eqb suffix "") && (String.length suffix <=? List.length ls)%nat
     && String.eqb (string_of_list_ascii (skipn k ls)) suffix
  then string_of_list_ascii (firstn k ls) else s.

(** [_get_repository_name], given the host name and the path of the
    parsed origin URL. *)
Definition get_repository_name (hostname url_path : string) : string :=
  hostname ++ removesuffix (rstrip_slash url_path) ".git".

(* ------------------------------------------------------------------ *)
(** ** The environment variables of [fetch_gomod_source] *)

(** An environment variable of the output: its value and its kind. *)
Record EnvVar := mkEnvVar { ev_value : string; ev_kind : string }.

Definition default_gomod_env_vars : list (string * EnvVar) :=
  [("GOCACHE", mkEnvVar "deps/gomod" "path");
   ("GOPATH", mkEnvVar "deps/gomod" "path");
   ("GOMODCACHE", mkEnvVar "deps/gomod/pkg/mod" "path")].

(** [env_vars.update(config.default_environment_variables.get("gomod", {}))] *)
Definition gomod_env_vars (config_gomod_env : list (string * EnvVar)) : list (string * EnvVar) :=
  fold_left (fun d kv => dict_set d (fst kv) (snd kv)) config_gomod_env default_gomod_env_vars.

(* ------------------------------------------------------------------ *)
(** ** [_run_gomod_cmd] and [_run_download_cmd] *)

(** The outcome of one run of a command: its standard output, or the
    non-zero return code of the [CalledProcessError]. *)
Inductive ProcOutcome := ProcOk (stdout : string) | ProcFailed (returncode : Z).

(** Python's [repr] of an integer. *)
Definition z_to_string (z : Z) : string :=
  if (z <? 0)%Z then "-" ++ nat_to_string (Z.to_nat (- z)) else nat_to_string (Z.to_nat z).

(** [_run_gomod_cmd]: [inr msg] is the [GoModError] it raises. *)
Definition run_gomod_cmd (cmd : list string) (outcome : ProcOutcome) : string + string :=
  match outcome with
  | ProcOk out => inl out
  | ProcFailed rc =>
      inr ("Processing gomod dependencies failed: `" ++ join_with " " cmd ++
           "` failed with rc=" ++ z_to_string rc)
  end.

(** The retry loop of [backoff.on_exception(backoff.expo, GoModError,
    jitter=None, max_tries=n)]: the call is made with the count of tries
    so far; on a [GoModError] it gives up when the count equals [n], and
    otherwise waits [2 ^ (tries - 1)] seconds and calls again. The result
    holds the outcome, the number of calls and the waits; [fuel] bounds
    the number of calls ([None] when it runs out). *)
Fixpoint backoff_loop (fuel : nat) (call : nat -> string + string) (max_tries tries : nat)
    (waits : list nat) : option ((string + string) * nat * list nat) :=
  match fuel with
  | O => None
  | S fuel' =>
      let tries := S tries in
      match call tries with
      | inl out => Some (inl out, tries, waits)
      | inr e =>
          if Nat.eqb tries max_tries then Some (inr e, tries, waits)
          else backoff_loop fuel' call max_tries tries (waits ++ [Nat.pow 2 (tries - 1)])
      end
  end.

(** [_run_download_cmd]: [attempt k] is the outcome of the [k]-th run of
    the command and [n_tries] is [gomod_download_max_tries]. *)
Definition run_download_cmd (fuel : nat) (attempt : nat -> ProcOutcome) (cmd : list string)
    (n_tries : nat) : option ((string + string) * nat * list nat) :=
  match backoff_loop fuel (fun k => run_gomod_cmd cmd (attempt k)) n_tries 0 [] with
  | Some (inl out, calls, waits) => Some (inl out, calls, waits)
  | Some (inr _, calls, waits) =>
      Some (inr ("Processing gomod dependencies failed. Cachi2 tried the " ++
                 join_with " " cmd ++ " command " ++ nat_to_string n_tries ++ " times."),
            calls, waits)
  | None => None
  end.

(* ------------------------------------------------------------------ *)
(** ** [_get_highest_semver_tag] and [_get_golang_version] *)

Section VersionTags.

(** [Version.parse] and the order [>] of [semver.Version]. *)
Variable parse_semver : string -> option SemVer.
Variable semver_gt : SemVer -> SemVer -> bool.

(** One step of the loop over the filtered tags. *)
Definition highest_step (major_version : nat) (subpath : option string)
    (highest : option (string * SemVer)) (tag_name : string) : option (string * SemVer) :=
  match get_semantic_version_from_tag parse_semver tag_name subpath with
  | None => highest (* not a semantic version tag *)
  | Some semantic_version =>
      if negb (Nat.eqb (sv_major semantic_version) major_version) then highest
      else match highest with
           | None => Some (tag_name, semantic_version)
           | Some (_, hv) =>
               if semver_gt semantic_version hv then Some (tag_name, semantic_version)
               else highest
           end
  end.

(** [_get_highest_semver_tag]: [tag_names] are the lines printed by
    [git tag --points-at] or [git for-each-ref ... --merged]; the tag is
    returned by its name. *)
Definition get_highest_semver_tag (tag_names : list string) (major_version : nat)
    (subpath : option string) : option string :=
  let prefix := match truthy subpath with Some sp => sp ++ "/v" | None => "v" end in
  let filtered_tags := filter (fun t => startswith t prefix) tag_names in
  match fold_left (highest_step major_version subpath) filtered_tags None with
  | Some (tag, _) => Some tag
  | None => None
  end.

(** The first major version of the list for which [tags] has a tag. *)
Fixpoint first_tag (tags : list string) (subpath : option string) (majors : list nat)
  : option (string * nat) :=
  match majors with
  | [] => None
  | major_version :: rest =>
      match get_highest_semver_tag tags major_version subpath with
      | Some t => Some (t, major_version)
      | None => first_tag tags subpath rest
      end
  end.

(** The [subpath] of [_get_golang_version]: [None] for the repository
    root, and the relative path in POSIX form otherwise. *)
Definition app_dir_subpath (app_dir : RootedPath) : option string :=
  if list_eq_dec string_dec (rp_path app_dir) (rp_root app_dir) then None
  else match subpath_from_root app_dir with
       | Some rel => Some (join_with "/" rel)
       | None => None
       end.

(** The prefix that [_get_highest_semver_tag] requires of a tag name. *)
Definition semver_tag_prefix (subpath : option string) : string :=
  match truthy subpath with Some sp => sp ++ "/v" | None => "v" end.

(** A tag name parses, after the subpath is removed, to a version of the
    given major version. *)
Definition is_version_candidate (major_version : nat) (subpath : option string)
    (tag_name : string) : bool :=
  match get_semantic_version_from_tag parse_semver tag_name subpath with
  | Some v => Nat.eqb (sv_major v) major_version
  | None => false
  end.

(** [_get_golang_version] without the tag update ([update_tags=False], as
    in [_create_module]): [points_at] are the tags on the commit and
    [merged] the tags reachable from it. *)
Definition get_golang_version (points_at merged : list string) (commit : Commit)
    (module_name : string) (app_dir : RootedPath) : result string :=
  let module_major_version := module_major_version module_name in
  let major_versions_to_try := major_versions_to_try module_name in
  let subpath := app_dir_subpath app_dir in
  match first_tag points_at subpath major_versions_to_try with
  | Some (tag_on_commit, _) =>
      Ok (match truthy subpath with
          | None => tag_on_commit
          | Some sp => str_replace tag_on_commit (sp ++ "/") ""
          end)
  | None =>
      match first_tag merged subpath major_versions_to_try with
      | Some (pseudo_base_tag, major_version) =>
          get_golang_pseudo_version parse_semver commit (Some pseudo_base_tag)
            (Some major_version) subpath
      | None => get_golang_pseudo_version parse_semver commit None module_major_version subpath
      end
  end.

End VersionTags.

(** The last character of a string. *)
Definition last_char (s : string) : option ascii :=
  match rev (list_ascii_of_string s) with
  | c :: _ => Some c
  | [] => None
  end.

(** A name ending with [/]: [git check-ref-format] refuses such a tag
    name. *)
Definition ends_with_slash (s : string) : bool :=
  match rev (list_ascii_of_string s) with
  | c :: _ => Ascii.eqb c "/"
  | [] => false
  end.

(** The version reifier of [_create_module]: [_get_golang_version(name,
    app_dir)] on the git repository at [app_dir.root], where [repo root]
    gives the tags on its [HEAD] commit ([git tag --points-at]), the tags
    reachable from it ([git for-each-ref --merged]) and the commit. The
    error branch stands for the exception of an unparsable tag, which the
    reifier never meets ([get_golang_version_ok] below). *)
Definition golang_version_of_repo (parse_semver : string -> option SemVer)
    (semver_gt : SemVer -> SemVer -> bool)
    (repo : list string -> list string * list string * Commit)
    (module_name : string) (app_dir : RootedPath) : string :=
  let '(points_at, merged, commit) := repo (rp_root app_dir) in
  match get_golang_version parse_semver semver_gt points_at merged commit module_name app_dir with
  | Ok v => v
  | Err _ => ""
  end.

(* ------------------------------------------------------------------ *)
(** ** The module list of [_resolve_gomod] *)

(** [(module for pkg in go_list_deps("all") if (module := pkg.module) and not module.main)] *)
Definition package_modules (packages : list ParsedPackage) : list ParsedModule :=
  flat_map (fun pkg => match pp_module pkg with
                       | Some module => if pm_main module then [] else [module]
                       | None => []
                       end) packages.

(** [all_modules] of [_resolve_gomod], validated against the app directory. *)
Definition resolve_all_modules (app_dir : RootedPath) (deps_all : list ParsedPackage)
    (downloaded_modules : list ParsedModule) : result (list ParsedModule) :=
  let all_modules := deduplicate_resolved_modules (package_modules deps_all) downloaded_modules in
  _ <- validate_local_replacements all_modules app_dir ;;
  Ok all_modules.

(** The module line that [go mod vendor] writes for a parsed module of
    one of the five shapes, as the list of its fields. *)
Definition vendor_line_fields (m : ParsedModule) : option (list string) :=
  match pm_main m, pm_version m, pm_replace m with
  | false, Some v, None => Some [pm_path m; v]
  | false, None, Some (mkParsedModule rp None false None) => Some [pm_path m; "=>"; rp]
  | false, None, Some (mkParsedModule rp (Some rv) false None) => Some [pm_path m; "=>"; rp; rv]
  | false, Some v, Some (mkParsedModule rp None false None) => Some [pm_path m; v; "=>"; rp]
  | false, Some v, Some (mkParsedModule rp (Some rv) false None) =>
      Some [pm_path m; v; "=>"; rp; rv]
  | _, _, _ => None
  end.

(* ================================================================== *)
(** * Properties *)

(** ** Generic lemmas *)

Lemma str_app_assoc (a b c : string) : (a ++ b) ++ c = a ++ (b ++ c).
Proof. induction a as [|x a IH]; simpl; [reflexivity | now rewrite IH]. Qed.

Lemma str_app_nil_r (a : string) : a ++ "" = a.
Proof. induction a as [|x a IH]; simpl; [reflexivity | now rewrite IH]. Qed.

Lemma map_result_Forall2 {A B} (f : A -> result B) l l' :
  map_result f l = Ok l' -> Forall2 (fun x y => f x = Ok y) l l'.
Proof.
  revert l'; induction l as [|x l IH]; simpl; intros l' H.
  - inversion H; constructor.
  - destruct (f x) as [y|e] eqn:Hf; simpl in H; [|discriminate].
    destruct (map_result f l) as [ys|e] eqn:Hl; simpl in H; [|discriminate].
    inversion H; subst; constructor; auto.
Qed.

Lemma map_result_single {A B} (f : A -> result B) x y :
  f x = Ok y -> map_result f [x] = Ok [y].
Proof. intros H; simpl; rewrite H; reflexivity. Qed.

(** ** Module creation *)

Lemma create_module_version_empty (gv : string -> RootedPath -> string)
    (gv_nonempty : forall n r, gv n r <> "") main dir pm m :
  create_module gv main dir pm = Ok m ->
  (m_version m = "" <-> pm_replace pm = None /\ truthy (pm_version pm) = None).
Proof.
  unfold create_module; intros H.
  destruct (pm_replace pm) as [r|] eqn:Hr.
  - destruct (truthy (pm_version r)) as [v|] eqn:Hv.
    + inversion H; subst; simpl.
      destruct (pm_version r) as [v'|]; simpl in Hv; [|discriminate].
      destruct (String.eqb_spec v' "") as [E|E]; inversion Hv; subst.
      split; [intros; contradiction | intros [? _]; discriminate].
    + destruct (join_within_root dir (pm_path r)) as [res|e]; simpl in H; [|discriminate].
      inversion H; subst; simpl.
      split; [intros E; exfalso; eapply gv_nonempty; exact E | intros [? _]; discriminate].
  - inversion H; subst; simpl.
    destruct (pm_version pm) as [v|]; simpl.
    + destruct (String.eqb_spec v "") as [E|E]; split; intros HH; try tauto.
      destruct HH as [_ HH]; discriminate.
    + tauto.
Qed.

(** ** The deduplicating merge *)

Local Open Scope list_scope.

Lemma key_eqb_eq (a b : Key) : key_eqb a b = true <-> a = b.
Proof.
  destruct a as [a1 a2], b as [b1 b2]; unfold key_eqb; simpl.
  destruct a2 as [x|], b2 as [y|].
  - rewrite andb_true_iff, !String.eqb_eq.
    split; [intros [-> ->]; reflexivity | intros H; inversion H; auto].
  - rewrite andb_false_r; split; [discriminate | intros H; inversion H].
  - rewrite andb_false_r; split; [discriminate | intros H; inversion H].
  - rewrite andb_true_r, String.eqb_eq.
    split; [intros ->; reflexivity | intros H; inversion H; auto].
Qed.

Lemma existsb_key_In (k : Key) (l : list Key) : existsb (key_eqb k) l = true <-> In k l.
Proof.
  rewrite existsb_exists; split.
  - intros [x [Hx E]]. apply key_eqb_eq in E; subst; assumption.
  - intros H; exists k; split; [assumption | apply key_eqb_eq; reflexivity].
Qed.

(** The modules kept from [l] when the keys in [seen] are already taken. *)
Fixpoint first_occurrences (seen : list Key) (l : list ParsedModule) : list ParsedModule :=
  match l with
  | [] => []
  | m :: l' =>
      if existsb (key_eqb (get_unique_key m)) seen then first_occurrences seen l'
      else m :: first_occurrences (seen ++ [get_unique_key m]) l'
  end.

Lemma setdefault_all_first_occurrences d l :
  setdefault_all d l =
  (d ++ map (fun m => (get_unique_key m, m)) (first_occurrences (map fst d) l))%list.
Proof.
  revert d; induction l as [|m l IH]; intros d; simpl.
  - now rewrite app_nil_r.
  - destruct (existsb (key_eqb (get_unique_key m)) (map fst d)).
    + apply IH.
    + rewrite IH, map_app; simpl. rewrite <- app_assoc. reflexivity.
Qed.

Lemma deduplicate_first_occurrences pm dm :
  deduplicate_resolved_modules pm dm = first_occurrences [] (pm ++ dm).
Proof.
  unfold deduplicate_resolved_modules.
  rewrite setdefault_all_first_occurrences; simpl.
  rewrite map_map; simpl. apply map_id.
Qed.

Lemma first_occurrences_fresh seen l :
  NoDup (map get_unique_key (first_occurrences seen l)) /\
  Forall (fun m => ~ In (get_unique_key m) seen) (first_occurrences seen l).
Proof.
  revert seen; induction l as [|m l IH]; intros seen; simpl.
  - split; constructor.
  - destruct (existsb (key_eqb (get_unique_key m)) seen) eqn:E.
    + apply IH.
    + assert (Hm : ~ In (get_unique_key m) seen).
      { intros Hin. apply (existsb_key_In _ seen) in Hin. congruence. }
      destruct (IH (seen ++ [get_unique_key m])) as [Hnd Hf].
      split; simpl.
      * constructor; [|assumption].
        intros Hin. apply in_map_iff in Hin as [x [Ex Hx]].
        rewrite Forall_forall in Hf. apply (Hf x Hx).
        rewrite Ex. apply in_or_app; right; left; reflexivity.
      * constructor; [assumption|].
        eapply Forall_impl; [|exact Hf].
        intros x Hx Hin; apply Hx, in_or_app; left; assumption.
Qed.

Lemma first_occurrences_first seen l m :
  In m (first_occurrences seen l) ->
  exists l1 l2, l = l1 ++ m :: l2 /\
                Forall (fun x => get_unique_key x <> get_unique_key m) l1.
Proof.
  revert seen; induction l as [|y l IH]; intros seen Hin; simpl in Hin; [contradiction|].
  destruct (existsb (key_eqb (get_unique_key y)) seen) eqn:E.
  - (* [y] is skipped: its key is in [seen], where [m]'s key is not *)
    pose proof (proj2 (first_occurrences_fresh seen l)) as Hf.
    rewrite Forall_forall in Hf. specialize (Hf m Hin).
    destruct (IH seen Hin) as [l1 [l2 [-> Hl1]]].
    exists (y :: l1), l2; split; [reflexivity|].
    constructor; [|assumption].
    intros Ek. apply Hf. rewrite <- Ek. apply existsb_key_In; assumption.
  - destruct Hin as [<- | Hin].
    + exists [], l; split; [reflexivity | constructor].
    + pose proof (proj2 (first_occurrences_fresh (seen ++ [get_unique_key y]) l)) as Hf.
      rewrite Forall_forall in Hf. specialize (Hf m Hin).
      destruct (IH _ Hin) as [l1 [l2 [-> Hl1]]].
      exists (y :: l1), l2; split; [reflexivity|].
      constructor; [|assumption].
      intros Ek. apply Hf. rewrite <- Ek. apply in_or_app; right; left; reflexivity.
Qed.

Lemma first_occurrences_cover seen l x :
  In x l -> In (get_unique_key x) seen \/
            exists m, In m (first_occurrences seen l) /\ get_unique_key m = get_unique_key x.
Proof.
  revert seen; induction l as [|y l IH]; intros seen Hin; simpl in Hin; [contradiction|].
  simpl. destruct (existsb (key_eqb (get_unique_key y)) seen) eqn:E.
  - destruct Hin as [<- | Hin].
    + left. apply existsb_key_In; assumption.
    + apply IH; assumption.
  - destruct Hin as [<- | Hin].
    + right. exists y; split; [left; reflexivity | reflexivity].
    + destruct (IH (seen ++ [get_unique_key y]) Hin) as [Hs | [m [Hm Ek]]].
      * apply in_app_or in Hs as [Hs | [Hs | []]]; [left; assumption|].
        right. exists y; split; [left; reflexivity | assumption].
      * right. exists m; split; [right; assumption | assumption].
Qed.

(** C4. The merged module list keeps at most one module per uniqueness
    key; each module kept is the first one with its key in the walk
    order package-modules-set then downloaded-set (first writer wins);
    and every input key is represented in the merged list. *)
Theorem deduplicate_unique_first_writer (package_modules downloaded_modules : list ParsedModule) :
  let merged := deduplicate_resolved_modules package_modules downloaded_modules in
  NoDup (map get_unique_key merged) /\
  (forall m, In m merged ->
     exists l1 l2, package_modules ++ downloaded_modules = l1 ++ m :: l2 /\
                   Forall (fun x => get_unique_key x <> get_unique_key m) l1) /\
  (forall x, In x (package_modules ++ downloaded_modules) ->
     exists m, In m merged /\ get_unique_key m = get_unique_key x).
Proof.
  cbv zeta. rewrite deduplicate_first_occurrences.
  split; [apply (first_occurrences_fresh [])|split].
  - intros m Hm. apply (first_occurrences_first [] _ _ Hm).
  - intros x Hx. destruct (first_occurrences_cover [] _ _ Hx) as [[]|H]; exact H.
Qed.

(** The uniqueness key collapses replacement as described in the data
    model: replacement path and version for a version replacement, path
    and replacement path for a local replacement, path and version
    otherwise. *)
Lemma get_unique_key_cases (pm : ParsedModule) :
  (pm_replace pm = None -> get_unique_key pm = (pm_path pm, pm_version pm)) /\
  (forall r v, pm_replace pm = Some r -> truthy (pm_version r) = Some v ->
               get_unique_key pm = (pm_path r, Some v)) /\
  (forall r, pm_replace pm = Some r -> truthy (pm_version r) = None ->
             get_unique_key pm = (pm_path pm, Some (pm_path r))).
Proof.
  unfold get_unique_key; repeat split.
  - intros ->; reflexivity.
  - intros r v -> Hv; rewrite Hv.
    destruct (pm_version r) as [w|]; simpl in Hv; [|discriminate].
    destruct (String.eqb w ""); congruence.
  - intros r -> Hv; rewrite Hv; reflexivity.
Qed.

(** ** Package creation *)

Fixpoint has_char (c : ascii) (s : string) : bool :=
  match s with
  | EmptyString => false
  | String d s' => Ascii.eqb c d || has_char c s'
  end.

Lemma has_char_app (c : ascii) a b : has_char c (a ++ b) = has_char c a || has_char c b.
Proof. induction a as [|d a IH]; simpl; [reflexivity|]. rewrite IH, orb_assoc; reflexivity. Qed.

Lemma split_on_aux_app (c : ascii) a b cur :
  split_on_aux c (a ++ String c b) cur = split_on_aux c a cur ++ split_on_aux c b "".
Proof.
  revert cur; induction a as [|d a IH]; intros cur; simpl.
  - rewrite Ascii.eqb_refl; reflexivity.
  - destruct (Ascii.eqb c d); simpl; rewrite IH; reflexivity.
Qed.

Lemma split_on_aux_head (c : ascii) s cur :
  exists seg rest, split_on_aux c s cur = (cur ++ seg)%string :: rest.
Proof.
  revert cur; induction s as [|d s IH]; intros cur; simpl.
  - exists ""%string, []; rewrite str_app_nil_r; reflexivity.
  - destruct (Ascii.eqb c d).
    + exists ""%string, (split_on_aux c s ""); rewrite str_app_nil_r; reflexivity.
    + destruct (IH (cur ++ String d "")%string) as [seg [rest E]].
      exists (String d seg), rest; rewrite E, str_app_assoc; reflexivity.
Qed.

Lemma split_on_aux_no_sep (c : ascii) s cur :
  has_char c cur = false -> Forall (fun seg => has_char c seg = false) (split_on_aux c s cur).
Proof.
  revert cur; induction s as [|d s IH]; intros cur Hc; simpl.
  - constructor; [assumption | constructor].
  - destruct (Ascii.eqb c d) eqn:E.
    + constructor; [assumption | apply IH; reflexivity].
    + apply IH. rewrite has_char_app; simpl; rewrite Hc, E; reflexivity.
Qed.

Lemma join_split_on (c : ascii) s cur :
  join_with (String c "") (split_on_aux c s cur) = (cur ++ s)%string.
Proof.
  revert cur; induction s as [|d s IH]; intros cur; simpl.
  - rewrite str_app_nil_r; reflexivity.
  - destruct (Ascii.eqb c d) eqn:E.
    + apply Ascii.eqb_eq in E; subst d.
      destruct (split_on_aux_head c s "") as [seg [rest Hs]].
      change (join_with (String c "") (cur :: split_on_aux c s "") = (cur ++ String c s)%string).
      rewrite Hs. change (cur ++ String c "" ++ join_with (String c "") ((""++seg)%string :: rest)
                          = cur ++ String c s)%string.
      rewrite <- Hs, IH; reflexivity.
    + rewrite IH, str_app_assoc; reflexivity.
Qed.

Lemma go_path_ok_app a b :
  go_path_ok (a ++ "/" ++ b)%string = go_path_ok a && go_path_ok b.
Proof. unfold go_path_ok, split_on; simpl; rewrite split_on_aux_app, forallb_app; reflexivity. Qed.

Lemma prefix_char (a ch : ascii) s : String.prefix (String a "") (String ch s) = Ascii.eqb a ch.
Proof.
  unfold String.prefix; destruct (ascii_dec a ch) as [->|Ne].
  - rewrite Ascii.eqb_refl; destruct s; reflexivity.
  - symmetry; apply Ascii.eqb_neq; assumption.
Qed.

Lemma go_path_ok_head s :
  go_path_ok s = true -> startswith s "/" = false /\ startswith s "." = false /\ s <> ""%string.
Proof.
  unfold go_path_ok, split_on, startswith; destruct s as [|ch s]; [discriminate|].
  rewrite !prefix_char.
  change (split_on_aux "/" (String ch s) "") with
    (if Ascii.eqb "/" ch then "" :: split_on_aux "/" s "" else split_on_aux "/" s (String ch "")).
  destruct (Ascii.eqb "/" ch) eqn:E; [discriminate|].
  destruct (split_on_aux_head "/" s (String ch "")) as [seg [rest Hs]].
  rewrite Hs; intros H.
  apply andb_true_iff in H as [H _]; apply andb_true_iff in H as [_ H].
  change (String ch "" ++ seg)%string with (String ch seg) in H. rewrite prefix_char in H.
  destruct (Ascii.eqb "." ch); [discriminate|].
  repeat split; discriminate.
Qed.

Lemma path_parts_ok s : go_path_ok s = true -> path_parts s = split_on "/" s.
Proof.
  intros H. pose proof (go_path_ok_head s H) as [Hs _].
  unfold path_parts; rewrite Hs.
  unfold go_path_ok in H. induction (split_on "/" s) as [|seg l IH]; simpl in *; [reflexivity|].
  apply andb_true_iff in H as [H1 H2].
  rewrite IH by assumption. apply andb_true_iff in H1 as [H1 H1'].
  destruct (String.eqb seg ""); [discriminate|].
  destruct (String.eqb_spec seg "."); [subst; discriminate | reflexivity].
Qed.

Lemma strip_parts_app l r : strip_parts l (l ++ r) = Some r.
Proof. induction l as [|x l IH]; simpl; [reflexivity|]. rewrite String.eqb_refl; exact IH. Qed.

Lemma path_str_split s : path_str (split_on "/" s) = s.
Proof.
  unfold split_on.
  pose proof (split_on_aux_no_sep "/" s "" eq_refl) as Hf.
  pose proof (join_split_on "/" s "") as J.
  destruct (split_on_aux "/" s "") as [|seg rest] eqn:E.
  - destruct (split_on_aux_head "/" s "") as [? [? E']]; congruence.
  - unfold path_str.
    destruct (String.eqb_spec seg "/") as [->|_]; [inversion Hf; discriminate|].
    exact J.
Qed.

Lemma removeprefix_not_prefix s p : String.prefix p s = false -> removeprefix s p = s.
Proof. unfold removeprefix; intros ->; reflexivity. Qed.

Lemma dict_get_set_same {V} (d : list (string * V)) k v : dict_get (dict_set d k v) k = Some v.
Proof.
  induction d as [|[k' v'] d IH]; simpl; [rewrite String.eqb_refl; reflexivity|].
  destruct (String.eqb k k') eqn:E; simpl; [rewrite String.eqb_refl; reflexivity|].
  rewrite E; exact IH.
Qed.

Lemma dict_get_set_other {V} (d : list (string * V)) k k2 v :
  k2 <> k -> dict_get (dict_set d k2 v) k = dict_get d k.
Proof.
  intros Hne. induction d as [|[k' v'] d IH]; simpl.
  - destruct (String.eqb_spec k k2); [congruence | reflexivity].
  - destruct (String.eqb_spec k2 k') as [->|Ne]; simpl.
    + destruct (String.eqb_spec k k'); [congruence | reflexivity].
    + destruct (String.eqb k k'); [reflexivity | exact IH].
Qed.

Lemma fold_dict_set_keep (l : list Module) d k M :
  dict_get d k = Some M ->
  Forall (fun m => m_original_name m <> k) l ->
  dict_get (fold_left (fun d m => dict_set d (m_original_name m) m) l d) k = Some M.
Proof.
  revert d; induction l as [|m l IH]; intros d Hd Hf; simpl; [assumption|].
  inversion Hf; subst. apply IH; [|assumption].
  rewrite dict_get_set_other by assumption; assumption.
Qed.

Lemma index_modules_last ms1 M ms2 :
  Forall (fun m => m_original_name m <> m_original_name M) ms2 ->
  dict_get (index_modules (ms1 ++ M :: ms2)) (m_original_name M) = Some M.
Proof.
  intros Hf. unfold index_modules; rewrite fold_left_app; simpl.
  apply fold_dict_set_keep; [apply dict_get_set_same | assumption].
Qed.

Lemma relative_to_extension a b :
  go_path_ok a = true -> go_path_ok b = true ->
  relative_to (a ++ "/" ++ b)%string a = Some (split_on "/" b).
Proof.
  intros Ha Hb. unfold relative_to.
  rewrite (path_parts_ok a Ha), path_parts_ok by (rewrite go_path_ok_app, Ha, Hb; reflexivity).
  unfold split_on at 2. change ("/" ++ b)%string with (String "/" b).
  rewrite split_on_aux_app. apply strip_parts_app.
Qed.

(** C5. A parsed module with a version replacement becomes the record
    named after the replacement path, with the declared path as its
    original name, the replacement path as its real path and the
    replacement version as its version. A non-standard package whose
    import path is the declared path extended by a sub-path, and whose
    module is the declared path, attaches to that record (when no later
    module in the list is indexed under the same original name) with the
    sub-path as its relative path; its purl name is the replacement path
    extended by the sub-path. *)
Theorem version_replacement_module_and_package (gv : string -> RootedPath -> string)
    main dir pm r v :
  pm_replace pm = Some r -> pm_version r = Some v -> v <> ""%string ->
  create_module gv main dir pm = Ok (mkModule (pm_path r) (pm_path pm) (pm_path r) v false) /\
  forall ms1 ms2 sub pkg pmod,
    go_path_ok (pm_path pm) = true -> go_path_ok sub = true ->
    pp_import_path pkg = (pm_path pm ++ "/" ++ sub)%string ->
    pp_standard pkg = false -> pp_module pkg = Some pmod -> pm_path pmod = pm_path pm ->
    Forall (fun m => m_original_name m <> pm_path pm) ms2 ->
    create_packages_from_parsed_data
      (ms1 ++ mkModule (pm_path r) (pm_path pm) (pm_path r) v false :: ms2) [pkg]
    = Ok [APackage (mkPackage sub (mkModule (pm_path r) (pm_path pm) (pm_path r) v false))] /\
    package_real_path (mkPackage sub (mkModule (pm_path r) (pm_path pm) (pm_path r) v false))
    = (pm_path r ++ "/" ++ sub)%string.
Proof.
  intros Hr Hv Hne. split.
  - unfold create_module; rewrite Hr, Hv; simpl.
    destruct (String.eqb_spec v ""); [contradiction | reflexivity].
  - intros ms1 ms2 sub pkg pmod Hok Hsub Himp Hstd Hmod Hpath Hlast.
    pose proof (go_path_ok_head sub Hsub) as [_ [Hdot Hsne]].
    split.
    + apply map_result_single. unfold create_package.
      rewrite Hstd, Hmod, Hpath.
      pose proof (index_modules_last ms1 (mkModule (pm_path r) (pm_path pm) (pm_path r) v false) ms2
                    Hlast) as HI.
      cbn [m_original_name] in HI. rewrite HI.
      simpl bind. unfold resolve_package_relative_path; simpl m_original_name.
      rewrite Himp, relative_to_extension by assumption. simpl bind.
      rewrite path_str_split, removeprefix_not_prefix by exact Hdot. reflexivity.
    + unfold package_real_path; simpl.
      destruct (String.eqb_spec sub ""); [contradiction | reflexivity].
Qed.

(** Witness for C5: the version replacement
    [example.com/b v1.0.0 => example.com/c v1.1.0] and the package
    [example.com/b/sub]. *)
Lemma version_replacement_module_and_package_witness :
  create_module (fun _ _ => "v0.0.0") (mkModule "example.com/a" "example.com/a" "github.com/org/a" "v1.2.3" false)
    (mkRootedPath ["repo"] ["repo"])
    (mkParsedModule "example.com/b" (Some "v1.0.0") false
       (Some (mkParsedModule "example.com/c" (Some "v1.1.0") false None)))
  = Ok (mkModule "example.com/c" "example.com/b" "example.com/c" "v1.1.0" false) /\
  create_packages_from_parsed_data
    [mkModule "example.com/a" "example.com/a" "github.com/org/a" "v1.2.3" false;
     mkModule "example.com/c" "example.com/b" "example.com/c" "v1.1.0" false]
    [mkParsedPackage "example.com/b/sub" false
       (Some (mkParsedModule "example.com/b" (Some "v1.0.0") false
                (Some (mkParsedModule "example.com/c" (Some "v1.1.0") false None))))]
  = Ok [APackage (mkPackage "sub" (mkModule "example.com/c" "example.com/b" "example.com/c" "v1.1.0" false))] /\
  package_real_path (mkPackage "sub" (mkModule "example.com/c" "example.com/b" "example.com/c" "v1.1.0" false))
  = "example.com/c/sub".
Proof.
  destruct (version_replacement_module_and_package (fun _ _ => "v0.0.0")
              (mkModule "example.com/a" "example.com/a" "github.com/org/a" "v1.2.3" false)
              (mkRootedPath ["repo"] ["repo"])
              (mkParsedModule "example.com/b" (Some "v1.0.0") false
                 (Some (mkParsedModule "example.com/c" (Some "v1.1.0") false None)))
              (mkParsedModule "example.com/c" (Some "v1.1.0") false None) "v1.1.0"
              eq_refl eq_refl ltac:(discriminate)) as [H1 H2].
  split; [exact H1|].
  apply (H2 [mkModule "example.com/a" "example.com/a" "github.com/org/a" "v1.2.3" false] [] "sub"
           (mkParsedPackage "example.com/b/sub" false
              (Some (mkParsedModule "example.com/b" (Some "v1.0.0") false
                       (Some (mkParsedModule "example.com/c" (Some "v1.1.0") false None)))))
           (mkParsedModule "example.com/b" (Some "v1.0.0") false
              (Some (mkParsedModule "example.com/c" (Some "v1.1.0") false None))));
    first [vm_compute; reflexivity | constructor].
Defined.

(** ** Joining simple names below a rooted path *)

Lemma is_prefix_of_app p l r : is_prefix_of p l = true -> is_prefix_of p (l ++ r) = true.
Proof.
  revert l; induction p as [|x p IH]; intros l H; [reflexivity|].
  destruct l as [|y l]; simpl in *; [discriminate|].
  apply andb_true_iff in H as [H1 H2]; rewrite H1; simpl; apply IH; assumption.
Qed.

Lemma join_vendor rp :
  is_prefix_of (rp_root rp) (rp_path rp) = true ->
  join_within_root rp "vendor" = Ok (mkRootedPath (rp_root rp) (rp_path rp ++ ["vendor"])).
Proof.
  intros H; unfold join_within_root; simpl.
  rewrite (is_prefix_of_app _ _ _ H); reflexivity.
Qed.

Lemma join_vendor_modules_txt rp :
  is_prefix_of (rp_root rp) (rp_path rp) = true ->
  join_within_root rp "vendor/modules.txt"
  = Ok (mkRootedPath (rp_root rp) (rp_path rp ++ ["vendor"; "modules.txt"])).
Proof.
  intros H; unfold join_within_root; simpl.
  rewrite <- app_assoc; simpl.
  rewrite (is_prefix_of_app _ _ _ H); reflexivity.
Qed.

Lemma join_within_root_err rp p e :
  join_within_root rp p = Err e -> exists msg, e = PathOutsideRoot msg "".
Proof.
  unfold join_within_root.
  destruct (is_prefix_of _ _); intros H; inversion H; eexists; reflexivity.
Qed.

(** ** The vendoring arbiter *)

(** Counterexample to C6: with both flags present the arbiter does not
    return [(true, true)], since [gomod-vendor-check] is looked at first;
    and with [gomod-vendor-check] and a regular file named [vendor] (no
    vendor directory) it does not allow changes. *)
Lemma should_vendor_deps_both_flags_cex :
  should_vendor_deps ["gomod-vendor"; "gomod-vendor-check"] (mkRootedPath ["repo"] ["repo"])
    (fun _ => Dir) false = Ok (true, false) /\
  should_vendor_deps ["gomod-vendor-check"] (mkRootedPath ["repo"] ["repo"])
    (fun _ => File) false = Ok (true, false).
Proof. split; reflexivity. Qed.

(** C6 (as amended). For an application directory below its root, with
    [entry] what the path [vendor] is on disk: [gomod-vendor-check] wins
    and gives [(true, vendor path absent)]; otherwise [gomod-vendor]
    gives [(true, true)]; otherwise strict mode with a vendor directory
    fails with [PackageRejected], whose reason names both flags;
    otherwise the result is [(false, false)]. *)
Theorem should_vendor_deps_table flags app_dir fs strict :
  is_prefix_of (rp_root app_dir) (rp_path app_dir) = true ->
  let entry := fs (rp_path app_dir ++ ["vendor"]) in
  (mem "gomod-vendor-check" flags = true ->
     should_vendor_deps flags app_dir fs strict = Ok (true, negb (fs_exists entry))) /\
  (mem "gomod-vendor-check" flags = false -> mem "gomod-vendor" flags = true ->
     should_vendor_deps flags app_dir fs strict = Ok (true, true)) /\
  (mem "gomod-vendor-check" flags = false -> mem "gomod-vendor" flags = false ->
     strict = true -> fs_is_dir entry = true ->
     should_vendor_deps flags app_dir fs strict = Err (PackageRejected vendor_flags_required_reason)) /\
  (mem "gomod-vendor-check" flags = false -> mem "gomod-vendor" flags = false ->
     (strict = false \/ fs_is_dir entry = false) ->
     should_vendor_deps flags app_dir fs strict = Ok (false, false)) /\
  String.index 0 "gomod-vendor" vendor_flags_required_reason <> None /\
  String.index 0 "gomod-vendor-check" vendor_flags_required_reason <> None.
Proof.
  intros Hroot entry. unfold should_vendor_deps. rewrite (join_vendor _ Hroot). simpl bind.
  fold entry. repeat split.
  - intros ->; reflexivity.
  - intros -> ->; reflexivity.
  - intros -> -> -> ->; reflexivity.
  - intros -> -> [-> | ->]; [reflexivity | now rewrite andb_false_r].
  - vm_compute; discriminate.
  - vm_compute; discriminate.
Qed.

(** Witness for C6: a directory with a vendor directory and both flags. *)
Lemma should_vendor_deps_table_witness :
  should_vendor_deps ["gomod-vendor"; "gomod-vendor-check"] (mkRootedPath ["repo"] ["repo"])
    (fun _ => Dir) true = Ok (true, negb (fs_exists Dir)).
Proof.
  apply (should_vendor_deps_table ["gomod-vendor"; "gomod-vendor-check"]
           (mkRootedPath ["repo"] ["repo"]) (fun _ => Dir) true eq_refl).
  reflexivity.
Defined.

(** ** The vendor manifest parser *)

Lemma parse_module_parts_shape line parts :
  (module_shape_ok parts = true -> exists m, parse_module_parts line parts = Ok m) /\
  (module_shape_ok parts = false ->
     exists msg, parse_module_parts line parts = Err (UnexpectedFormat msg)).
Proof.
  destruct parts as [|a [|b [|c [|d [|e [|f l]]]]]]; simpl;
    split; intros H; try discriminate; eauto.
  - rewrite H; eauto.
  - rewrite H; eauto.
  - destruct (String.eqb b "=>"); eauto.
    simpl in H; rewrite H; eauto.
  - apply orb_false_iff in H as [H1 H2]; rewrite H1, H2; eauto.
  - rewrite H; eauto.
  - rewrite H; eauto.
Qed.

Lemma set_last_length l : List.length (set_last l) = List.length l.
Proof.
  induction l as [|x [|y l] IH]; simpl in *; auto.
Qed.

Lemma set_last_idem l : set_last (set_last l) = set_last l.
Proof.
  induction l as [|x [|y l] IH]; [reflexivity | reflexivity|].
  change (set_last (x :: y :: l)) with (x :: set_last (y :: l)).
  destruct (set_last (y :: l)) as [|z l'] eqn:E; [destruct l; discriminate|].
  destruct l' as [|w l'']; simpl in *; rewrite ?IH; reflexivity.
Qed.

Lemma set_last_snoc_false l : set_last (l ++ [false]) = l ++ [true].
Proof.
  induction l as [|x [|y l] IH]; [reflexivity | reflexivity|].
  change ((x :: y :: l) ++ [false]) with (x :: ((y :: l) ++ [false])).
  change ((x :: y :: l) ++ [true]) with (x :: ((y :: l) ++ [true])).
  rewrite <- IH. reflexivity.
Qed.

Lemma combine_snoc {A B} (l1 : list A) (l2 : list B) x y :
  List.length l1 = List.length l2 -> combine (l1 ++ [x]) (l2 ++ [y]) = combine l1 l2 ++ [(x, y)].
Proof.
  revert l2; induction l1 as [|a l1 IH]; intros [|b l2] H; simpl in *;
    try discriminate; [reflexivity|].
  rewrite IH by congruence; reflexivity.
Qed.

Lemma emitted_snoc ms has m b :
  List.length ms = List.length has ->
  emitted (ms ++ [m]) (has ++ [b]) = emitted ms has ++ (if b then [m] else []).
Proof.
  intros H; unfold emitted. rewrite combine_snoc by assumption.
  rewrite filter_app, map_app; destruct b; reflexivity.
Qed.

Lemma manifest_modules_cons l ls :
  manifest_modules (l :: ls) =
  (if is_module_line l then
     (if existsb is_package_line (fst (manifest_blocks ls)) then
        match parse_module_line l with Ok m => [m] | Err _ => [] end
      else []) ++ manifest_modules ls
   else manifest_modules ls).
Proof.
  unfold manifest_modules; simpl.
  destruct (manifest_blocks ls) as [pre bs]; simpl.
  destruct (is_module_line l); reflexivity.
Qed.

Lemma manifest_blocks_pre l ls :
  fst (manifest_blocks (l :: ls)) =
  if is_module_line l then [] else l :: fst (manifest_blocks ls).
Proof. simpl; destruct (manifest_blocks ls); destruct (is_module_line l); reflexivity. Qed.

Lemma parse_vendor_loop_ok lines : forall ms has,
  List.length ms = List.length has ->
  forallb manifest_line_ok lines = true ->
  (ms = [] -> existsb is_package_line (fst (manifest_blocks lines)) = false) ->
  exists ms' has', parse_vendor_loop ms has lines = Ok (ms', has') /\
    List.length ms' = List.length has' /\
    emitted ms' has' =
    emitted ms (if existsb is_package_line (fst (manifest_blocks lines)) then set_last has else has)
    ++ manifest_modules lines.
Proof.
  induction lines as [|l ls IH]; intros ms has Hlen Hok Hpre.
  - exists ms, has; simpl; rewrite app_nil_r; auto.
  - simpl in Hok; apply andb_true_iff in Hok as [Hl Hls].
    rewrite manifest_modules_cons, manifest_blocks_pre. rewrite manifest_blocks_pre in Hpre.
    unfold manifest_line_ok in Hl. simpl parse_vendor_loop.
    unfold is_module_line in *.
    destruct (startswith l "# ") eqn:Hmod.
    + (* module line *)
      destruct (proj1 (parse_module_parts_shape l (split_ws (removeprefix l "# "))) Hl) as [m Hm].
      unfold parse_module_line; rewrite Hm; simpl bind.
      assert (Hlen' : List.length (ms ++ [m]) = List.length (has ++ [false]))
        by (rewrite !length_app; simpl; congruence).
      destruct (IH (ms ++ [m]) (has ++ [false]) Hlen' Hls) as [ms' [has' [Hrun [Hl' He]]]].
      { intros E; destruct ms; discriminate. }
      exists ms', has'; repeat split; auto.
      rewrite He. simpl existsb.
      destruct (existsb is_package_line (fst (manifest_blocks ls))).
      * rewrite set_last_snoc_false, emitted_snoc, app_assoc by assumption; reflexivity.
      * rewrite emitted_snoc, app_nil_r by assumption; reflexivity.
    + destruct (startswith l "#") eqn:Hhash; simpl negb; cbv iota.
      * (* marker line *)
        rewrite Hl; simpl negb; cbv iota.
        assert (Hp : is_package_line l = false) by (unfold is_package_line; rewrite Hhash; reflexivity).
        destruct (IH ms has Hlen Hls) as [ms' [has' [Hrun [Hl' He]]]].
        { intros E; specialize (Hpre E); simpl in Hpre; rewrite Hp in Hpre; exact Hpre. }
        exists ms', has'; repeat split; auto.
        rewrite He; simpl; rewrite Hp; reflexivity.
      * (* package line *)
        assert (Hp : is_package_line l = true) by (unfold is_package_line; rewrite Hhash; reflexivity).
        destruct ms as [|m0 ms0].
        { specialize (Hpre eq_refl); simpl in Hpre; rewrite Hp in Hpre; discriminate. }
        destruct (IH (m0 :: ms0) (set_last has)) as [ms' [has' [Hrun [Hl' He]]]];
          [rewrite set_last_length; assumption | assumption | discriminate |].
        exists ms', has'; repeat split; auto.
        rewrite He; simpl; rewrite Hp; simpl.
        destruct (existsb is_package_line (fst (manifest_blocks ls)));
          [rewrite set_last_idem|]; reflexivity.
Qed.

Lemma parse_vendor_loop_err lines : forall ms has,
  (forallb manifest_line_ok lines = false \/
   (ms = [] /\ existsb is_package_line (fst (manifest_blocks lines)) = true)) ->
  exists msg, parse_vendor_loop ms has lines = Err (UnexpectedFormat msg).
Proof.
  induction lines as [|l ls IH]; intros ms has H.
  - simpl in H; destruct H as [H | [_ H]]; discriminate.
  - rewrite manifest_blocks_pre in H. simpl forallb in H.
    unfold manifest_line_ok, is_module_line in H. simpl parse_vendor_loop.
    destruct (startswith l "# ") eqn:Hmod.
    + unfold parse_module_line.
      destruct (module_shape_ok (split_ws (removeprefix l "# "))) eqn:Hs.
      * destruct (proj1 (parse_module_parts_shape l _) Hs) as [m Hm]; rewrite Hm; simpl bind.
        apply IH. simpl in H. destruct H as [H | [_ H]]; [left; exact H | discriminate].
      * destruct (proj2 (parse_module_parts_shape l _) Hs) as [msg Hm]; rewrite Hm.
        exists msg; reflexivity.
    + destruct (startswith l "#") eqn:Hhash; simpl negb; cbv iota.
      * destruct (startswith l "##") eqn:Hmk; simpl negb; cbv iota; [|eexists; reflexivity].
        apply IH. simpl in H. unfold is_package_line in H. rewrite Hhash in H. simpl in H.
        exact H.
      * destruct ms as [|m0 ms0]; [eexists; reflexivity|].
        apply IH. simpl in H. destruct H as [H | [H _]]; [left; exact H | discriminate].
Qed.

(** C7. On the lines of an existing [vendor/modules.txt], the vendor
    parser succeeds exactly when every [#]-prefixed line is either a
    marker ([##]) or a module line ([# ]) of one of the five documented
    shapes and no package line comes before the first module line; it
    then emits exactly the modules whose block holds at least one package
    line, in order. In every other case it fails with
    [UnexpectedFormat]. *)
Theorem parse_vendor_lines_spec (lines : list string) :
  (manifest_ok lines = true -> parse_vendor_lines lines = Ok (manifest_modules lines)) /\
  (manifest_ok lines = false ->
     exists msg, parse_vendor_lines lines = Err (UnexpectedFormat msg)).
Proof.
  unfold manifest_ok, parse_vendor_lines. split; intros H.
  - apply andb_true_iff in H as [H1 H2].
    destruct (parse_vendor_loop_ok lines [] [] eq_refl H1) as [ms' [has' [Hrun [_ He]]]].
    { intros _; destruct (existsb _ _); [discriminate | reflexivity]. }
    rewrite Hrun; simpl. rewrite He.
    destruct (existsb _ _); reflexivity.
  - destruct (parse_vendor_loop_err lines [] []) as [msg Hrun].
    { apply andb_false_iff in H as [H | H]; [left; exact H | right; split; [reflexivity|]].
      destruct (existsb _ _); [reflexivity | discriminate]. }
    rewrite Hrun; exists msg; reflexivity.
Qed.

(** Witness for C7: a well-formed manifest (markers, the shapes, a
    module without packages) and a malformed one. *)
Lemma parse_vendor_lines_spec_witness :
  parse_vendor_lines ["# a v1"; "a/x"; "## explicit"; "# b v2"; "# c => ./c"; "c";
                      "# d v1 => e v2"; "d/y"]
  = Ok (manifest_modules ["# a v1"; "a/x"; "## explicit"; "# b v2"; "# c => ./c"; "c";
                          "# d v1 => e v2"; "d/y"]) /\
  exists msg, parse_vendor_lines ["# a v1 c"; "a"] = Err (UnexpectedFormat msg).
Proof.
  split.
  - apply (parse_vendor_lines_spec ["# a v1"; "a/x"; "## explicit"; "# b v2"; "# c => ./c"; "c";
                                    "# d v1 => e v2"; "d/y"]).
    vm_compute; reflexivity.
  - apply (parse_vendor_lines_spec ["# a v1 c"; "a"]). vm_compute; reflexivity.
Defined.

Lemma parse_vendor_loop_app pre : forall ms has post,
  parse_vendor_loop ms has (pre ++ post) =
  (st <- parse_vendor_loop ms has pre ;; parse_vendor_loop (fst st) (snd st) post).
Proof.
  induction pre as [|l pre IH]; intros ms has post; [reflexivity|].
  cbn [app parse_vendor_loop].
  destruct (startswith l "# ").
  - destruct (parse_module_line l); [apply IH | reflexivity].
  - destruct (negb (startswith l "#")).
    + destruct ms; [reflexivity | apply IH].
    + destruct (negb (startswith l "##")); [reflexivity | apply IH].
Qed.

Lemma parse_vendor_loop_length lines : forall ms has ms' has',
  List.length ms = List.length has ->
  parse_vendor_loop ms has lines = Ok (ms', has') -> List.length ms' = List.length has'.
Proof.
  induction lines as [|l ls IH]; intros ms has ms' has' Hlen H.
  - injection H as <- <-; exact Hlen.
  - cbn [parse_vendor_loop] in H.
    destruct (startswith l "# ").
    + destruct (parse_module_line l) as [m|e]; [|discriminate H].
      cbn [bind] in H.
      refine (IH _ _ _ _ _ H). rewrite !length_app; simpl; congruence.
    + destruct (negb (startswith l "#")).
      * destruct ms; [discriminate H|].
        refine (IH _ _ _ _ _ H). rewrite set_last_length; exact Hlen.
      * destruct (negb (startswith l "##")); [discriminate H|].
        exact (IH _ _ _ _ Hlen H).
Qed.

Lemma parse_vendor_loop_nonempty lines : forall ms has ms' has',
  parse_vendor_loop ms has lines = Ok (ms', has') ->
  (ms <> [] \/ exists l, In l lines /\ is_module_line l = true) -> ms' <> [].
Proof.
  induction lines as [|l ls IH]; intros ms has ms' has' H Hne.
  - injection H as <- <-. destruct Hne as [Hne | [x [[] _]]]; exact Hne.
  - cbn [parse_vendor_loop] in H. unfold is_module_line in Hne.
    destruct (startswith l "# ") eqn:Hm.
    + destruct (parse_module_line l) as [m|e]; [|discriminate H].
      cbn [bind] in H.
      refine (IH _ _ _ _ H _). left; destruct ms; discriminate.
    + assert (Hne' : ms <> [] \/ exists x, In x ls /\ is_module_line x = true).
      { destruct Hne as [Hne | [x [[<- | Hx] Hmx]]]; [left; exact Hne | congruence |].
        right; exists x; split; assumption. }
      destruct (negb (startswith l "#")).
      * destruct ms; [discriminate H|]. exact (IH _ _ _ _ H Hne').
      * destruct (negb (startswith l "##")); [discriminate H|]. exact (IH _ _ _ _ H Hne').
Qed.

Lemma manifest_blocks_pre_app pre post :
  (forall l, In l pre -> is_module_line l = false) ->
  fst (manifest_blocks (pre ++ post)) = pre ++ fst (manifest_blocks post).
Proof.
  induction pre as [|l pre IH]; intros H; [reflexivity|].
  cbn [app]. rewrite manifest_blocks_pre, (H l (in_eq _ _)), IH; [reflexivity|].
  intros x Hx; apply H; right; exact Hx.
Qed.

Lemma module_line_not_package l : is_module_line l = true -> is_package_line l = false.
Proof.
  unfold is_module_line, is_package_line, startswith.
  destruct l as [|c l]; [discriminate|]. cbn [String.prefix].
  destruct (Ascii.ascii_dec "#" c); [destruct l; reflexivity | discriminate].
Qed.

Lemma parse_vendor_loop_blanks j : forall ms has,
  ms <> [] -> parse_vendor_loop ms (set_last has) (repeat "" j) = Ok (ms, set_last has).
Proof.
  induction j as [|j IH]; intros ms has Hne; [reflexivity|].
  cbn [repeat parse_vendor_loop]. simpl startswith; cbv iota; simpl negb; cbv iota.
  destruct ms as [|m0 ms0]; [congruence|].
  rewrite set_last_idem. apply IH; exact Hne.
Qed.

(** C9. Every line that does not start with [#], the empty line
    included, is a package line, wherever it appears: before any module
    line an empty line makes the parse fail with [UnexpectedFormat]
    (whatever marker lines precede it); once a module line has been seen
    an empty line has exactly the effect of any other package line (it
    marks the most recent module, also after several modules and marker
    lines); so a module followed only by blank lines is emitted after the
    modules the preceding lines emit. *)
Theorem parse_vendor_blank_lines :
  is_package_line "" = true /\
  (forall pre rest, (forall l, In l pre -> is_module_line l = false) ->
     exists msg, parse_vendor_lines (pre ++ "" :: rest) = Err (UnexpectedFormat msg)) /\
  (forall pre rest x, (exists l, In l pre /\ is_module_line l = true) ->
     is_package_line x = true ->
     parse_vendor_lines (pre ++ "" :: rest) = parse_vendor_lines (pre ++ x :: rest)) /\
  (forall pre ms l m k, parse_vendor_lines pre = Ok ms ->
     is_module_line l = true -> parse_module_line l = Ok m -> (0 < k)%nat ->
     parse_vendor_lines (pre ++ l :: repeat "" k) = Ok (ms ++ [m])).
Proof.
  split; [reflexivity|]. split; [|split].
  - intros pre rest Hpre.
    destruct (parse_vendor_loop_err (pre ++ "" :: rest) [] []) as [msg Hrun].
    { right; split; [reflexivity|].
      rewrite manifest_blocks_pre_app by exact Hpre.
      apply existsb_exists; exists ""; split; [|reflexivity].
      apply in_or_app; right. rewrite manifest_blocks_pre. apply in_eq. }
    exists msg; unfold parse_vendor_lines; rewrite Hrun; reflexivity.
  - intros pre rest x Hmod Hx.
    unfold parse_vendor_lines; rewrite !parse_vendor_loop_app.
    destruct (parse_vendor_loop [] [] pre) as [[ms' has']|e] eqn:Hrun; [|reflexivity].
    cbn [bind fst snd].
    pose proof (parse_vendor_loop_nonempty _ _ _ _ _ Hrun (or_intror Hmod)) as Hne.
    assert (Hx' : startswith x "# " = false).
    { destruct (startswith x "# ") eqn:E; [|reflexivity].
      rewrite (module_line_not_package x E) in Hx; discriminate. }
    unfold is_package_line in Hx.
    cbn [parse_vendor_loop]. rewrite Hx'. simpl startswith. cbv iota.
    rewrite Hx. simpl negb. cbv iota.
    destruct ms' as [|m0 ms0]; [congruence | reflexivity].
  - intros pre ms l m k Hpre Hl Hm Hk.
    unfold parse_vendor_lines in *; rewrite parse_vendor_loop_app.
    destruct (parse_vendor_loop [] [] pre) as [[ms0 has0]|e] eqn:Hrun; [|discriminate Hpre].
    cbn [bind fst snd] in *. injection Hpre as <-.
    pose proof (parse_vendor_loop_length pre [] [] ms0 has0 eq_refl Hrun) as Hlen.
    destruct k as [|k]; [inversion Hk|].
    unfold is_module_line in Hl.
    cbn [parse_vendor_loop repeat]. rewrite Hl, Hm. cbn [bind].
    cbn [parse_vendor_loop]. simpl startswith; cbv iota; simpl negb; cbv iota.
    destruct (ms0 ++ [m]) as [|m1 ms1] eqn:E; [destruct ms0; discriminate|].
    rewrite <- E, parse_vendor_loop_blanks by (rewrite E; discriminate).
    cbn [bind fst snd].
    rewrite set_last_snoc_false, emitted_snoc by exact Hlen. reflexivity.
Qed.

(** Witness for C9: a blank line after a marker and before any module,
    a blank line after the later of two modules, and a module followed
    only by blank lines after a module with packages. *)
Lemma parse_vendor_blank_lines_witness :
  (exists msg, parse_vendor_lines (["## explicit"] ++ "" :: ["# a v1"; "a"])
               = Err (UnexpectedFormat msg)) /\
  parse_vendor_lines (["# a v1"; "a"; "# b v2"] ++ "" :: [])
  = parse_vendor_lines (["# a v1"; "a"; "# b v2"] ++ "b/p" :: []) /\
  parse_vendor_lines (["# a v1"; "a"; "## explicit"] ++ "# example.com/b v1.0.0" :: repeat "" 2)
  = Ok ([mkParsedModule "a" (Some "v1") false None] ++
        [mkParsedModule "example.com/b" (Some "v1.0.0") false None]).
Proof.
  split; [|split].
  - apply (proj1 (proj2 parse_vendor_blank_lines) ["## explicit"] ["# a v1"; "a"]).
    intros l [<- | []]; reflexivity.
  - apply (proj1 (proj2 (proj2 parse_vendor_blank_lines)) ["# a v1"; "a"; "# b v2"] [] "b/p").
    + exists "# b v2"; split; [right; right; left; reflexivity | reflexivity].
    + reflexivity.
  - apply (proj2 (proj2 (proj2 parse_vendor_blank_lines))); [reflexivity | reflexivity | reflexivity | repeat constructor].
Defined.

(** C10. When nothing exists at [vendor/modules.txt] below the module
    directory, the vendor parser returns an empty list; vendoring then
    yields an empty downloaded-set once [go mod vendor] succeeded and the
    vendor tree passed the change check. *)
Theorem parse_vendor_missing_manifest module_dir read can_make_changes run_vendor changed :
  is_prefix_of (rp_root module_dir) (rp_path module_dir) = true ->
  read (rp_path module_dir ++ ["vendor"; "modules.txt"]) = None ->
  parse_vendor module_dir read = Ok [] /\
  (run_vendor = Ok tt -> (can_make_changes = true \/ changed = false) ->
   vendor_deps module_dir can_make_changes run_vendor changed read = Ok []).
Proof.
  intros Hroot Hread.
  assert (HP : parse_vendor module_dir read = Ok []).
  { unfold parse_vendor; rewrite (join_vendor_modules_txt _ Hroot); simpl bind.
    rewrite Hread; reflexivity. }
  split; [exact HP|].
  intros -> Hc. unfold vendor_deps; simpl bind.
  destruct Hc as [-> | ->]; [simpl | rewrite andb_false_r]; exact HP.
Qed.

(** Witness for C10: a module directory without a manifest. *)
Lemma parse_vendor_missing_manifest_witness :
  parse_vendor (mkRootedPath ["repo"] ["repo"; "app"]) (fun _ => None) = Ok [].
Proof.
  apply (parse_vendor_missing_manifest (mkRootedPath ["repo"] ["repo"; "app"]) (fun _ => None)
           false (Ok tt) false); first [reflexivity | right; reflexivity].
Defined.

(** ** Validation of local replacements *)

Definition check_replacement (app_path : RootedPath) (acc : result unit) (np : string * string)
  : result unit :=
  _ <- acc ;;
  match join_within_root app_path (snd np) with
  | Ok _ => Ok tt
  | Err (PathOutsideRoot msg _) =>
      Err (PathOutsideRoot msg (local_replacement_solution (fst np) (snd np)))
  | Err e => Err e
  end.

Lemma validate_as_fold ms app_path :
  validate_local_replacements ms app_path =
  fold_left (check_replacement app_path)
    (flat_map (fun m => match pm_replace m with
                        | Some r => if startswith (pm_path r) "." then [(pm_path m, pm_path r)] else []
                        | None => []
                        end) ms) (Ok tt).
Proof. reflexivity. Qed.

Lemma check_replacement_ok app_path np :
  check_replacement app_path (Ok tt) np =
  match join_within_root app_path (snd np) with
  | Ok _ => Ok tt
  | Err (PathOutsideRoot msg _) =>
      Err (PathOutsideRoot msg (local_replacement_solution (fst np) (snd np)))
  | Err e => Err e
  end.
Proof. reflexivity. Qed.

Lemma fold_check_err app_path pairs e : fold_left (check_replacement app_path) pairs (Err e) = Err e.
Proof. induction pairs as [|np pairs IH]; simpl; [reflexivity | exact IH]. Qed.

Lemma fold_check_ok app_path pairs :
  fold_left (check_replacement app_path) pairs (Ok tt) = Ok tt <->
  Forall (fun np => exists p, join_within_root app_path (snd np) = Ok p) pairs.
Proof.
  induction pairs as [|np pairs IH]; cbn [fold_left].
  - split; [constructor | reflexivity].
  - rewrite check_replacement_ok.
    destruct (join_within_root app_path (snd np)) as [p|e] eqn:J.
    + rewrite IH. split; [intros H; constructor; eauto | intros H; inversion H; assumption].
    + destruct (join_within_root_err _ _ _ J) as [msg ->].
      rewrite fold_check_err. split; [discriminate | intros H; inversion H as [|? ? [p Hp]]; congruence].
Qed.

Lemma fold_check_fail app_path pairs e :
  fold_left (check_replacement app_path) pairs (Ok tt) = Err e ->
  exists np msg, In np pairs /\ join_within_root app_path (snd np) = Err (PathOutsideRoot msg "") /\
                 e = PathOutsideRoot msg (local_replacement_solution (fst np) (snd np)).
Proof.
  induction pairs as [|np pairs IH]; cbn [fold_left]; [discriminate|].
  rewrite check_replacement_ok.
  destruct (join_within_root app_path (snd np)) as [p|e'] eqn:J; intros H.
  - destruct (IH H) as [np' [msg [Hin [Hj He]]]]. exists np', msg; split; [right|]; auto.
  - destruct (join_within_root_err _ _ _ J) as [msg ->].
    rewrite fold_check_err in H. inversion H; subst.
    exists np, msg; split; [left|]; auto.
Qed.

Lemma in_replaced_paths ms np :
  In np (flat_map (fun m => match pm_replace m with
                            | Some r => if startswith (pm_path r) "." then [(pm_path m, pm_path r)] else []
                            | None => []
                            end) ms) <->
  exists m r, In m ms /\ pm_replace m = Some r /\ startswith (pm_path r) "." = true /\
              np = (pm_path m, pm_path r).
Proof.
  rewrite in_flat_map; split.
  - intros [m [Hm Hin]].
    destruct (pm_replace m) as [r|] eqn:Hr; [|contradiction].
    destruct (startswith (pm_path r) ".") eqn:Hs; [|contradiction].
    destruct Hin as [<- | []]. exists m, r; auto.
  - intros [m [r [Hm [Hr [Hs ->]]]]]. exists m; split; [assumption|].
    rewrite Hr, Hs; left; reflexivity.
Qed.

(** C8. Validation succeeds exactly when every replacement path that
    begins with [.] joins within the application root (other
    replacement paths are not looked at); when it fails, it fails with
    [PathOutsideRoot] for a module whose replacement path begins with
    [.] and escapes the root, with a solution text naming that module
    and that path. *)
Theorem validate_local_replacements_spec ms app_path :
  (validate_local_replacements ms app_path = Ok tt <->
   Forall (fun m => forall r, pm_replace m = Some r -> startswith (pm_path r) "." = true ->
                              exists p, join_within_root app_path (pm_path r) = Ok p) ms) /\
  (forall e, validate_local_replacements ms app_path = Err e ->
   exists m r msg, In m ms /\ pm_replace m = Some r /\ startswith (pm_path r) "." = true /\
     join_within_root app_path (pm_path r) = Err (PathOutsideRoot msg "") /\
     e = PathOutsideRoot msg (local_replacement_solution (pm_path m) (pm_path r))).
Proof.
  rewrite validate_as_fold. split.
  - rewrite fold_check_ok, !Forall_forall. split.
    + intros H m Hm r Hr Hs.
      apply (H (pm_path m, pm_path r)), in_replaced_paths. exists m, r; auto.
    + intros H np Hin. apply in_replaced_paths in Hin as [m [r [Hm [Hr [Hs ->]]]]].
      exact (H m Hm r Hr Hs).
  - intros e H. apply fold_check_fail in H as [np [msg [Hin [Hj He]]]].
    apply in_replaced_paths in Hin as [m [r [Hm [Hr [Hs ->]]]]].
    exists m, r, msg; auto.
Qed.

(** Witness for C8: [replace example.com/b => ../outside] from the root
    of the repository, next to a replacement that stays inside. *)
Lemma validate_local_replacements_spec_witness :
  exists m r msg,
    In m [mkParsedModule "example.com/a" None false (Some (mkParsedModule "./a" None false None));
          mkParsedModule "example.com/b" None false (Some (mkParsedModule "../outside" None false None))] /\
    pm_replace m = Some r /\ startswith (pm_path r) "." = true /\
    join_within_root (mkRootedPath ["repo"] ["repo"]) (pm_path r) = Err (PathOutsideRoot msg "") /\
    PathOutsideRoot "path ../outside is outside the root"
      (local_replacement_solution "example.com/b" "../outside")
    = PathOutsideRoot msg (local_replacement_solution (pm_path m) (pm_path r)).
Proof.
  apply (proj2 (validate_local_replacements_spec
    [mkParsedModule "example.com/a" None false (Some (mkParsedModule "./a" None false None));
     mkParsedModule "example.com/b" None false (Some (mkParsedModule "../outside" None false None))]
    (mkRootedPath ["repo"] ["repo"]))).
  vm_compute; reflexivity.
Defined.

(* ------------------------------------------------------------------ *)
(** ** The candidate major versions *)

(** Every character of a string is an ASCII decimal digit. *)
Definition all_digits (d : string) : bool := forallb is_digit (list_ascii_of_string d).

(** A string holds a newline character. *)
Definition has_newline (s : string) : bool :=
  existsb (Ascii.eqb "010"%char) (list_ascii_of_string s).

Lemma list_ascii_of_string_app (a b : string) :
  list_ascii_of_string (a ++ b)%string = list_ascii_of_string a ++ list_ascii_of_string b.
Proof. induction a as [|c a IH]; simpl; [reflexivity | now rewrite IH]. Qed.

Lemma string_of_list_ascii_app (a b : list ascii) :
  string_of_list_ascii (a ++ b) = (string_of_list_ascii a ++ string_of_list_ascii b)%string.
Proof. induction a as [|c a IH]; simpl; [reflexivity | now rewrite IH]. Qed.

Lemma take_digits_app (ds rest : list ascii) :
  forallb is_digit ds = true ->
  match rest with c :: _ => is_digit c = false | [] => True end ->
  take_digits (ds ++ rest) = (ds, rest).
Proof.
  intros Hd Hr. induction ds as [|c ds IH]; simpl.
  - destruct rest as [|c rest]; simpl; [reflexivity | now rewrite Hr].
  - simpl in Hd. apply andb_prop in Hd as [Hc Hd]. rewrite Hc, IH; auto.
Qed.

Lemma take_digits_split (r ds rest : list ascii) :
  take_digits r = (ds, rest) -> r = ds ++ rest /\ forallb is_digit ds = true.
Proof.
  revert ds rest. induction r as [|c r IH]; simpl; intros ds rest E.
  - inversion E; auto.
  - destruct (is_digit c) eqn:Hc.
    + destruct (take_digits r) as [ds' rest'] eqn:Et. inversion E; subst.
      destruct (IH _ _ eq_refl) as [-> Hd]. simpl. rewrite Hc, Hd. auto.
    + inversion E; auto.
Qed.

Lemma digit_not_newline (c : ascii) : is_digit c = true -> Ascii.eqb c "010"%char = false.
Proof.
  intros H. destruct (Ascii.eqb c "010"%char) eqn:E; [|reflexivity].
  apply Ascii.eqb_eq in E. subst. discriminate H.
Qed.

Lemma slash_v_not_digit : is_digit "v"%char = false.
Proof. reflexivity. Qed.

Lemma existsb_rev {A} (f : A -> bool) (l : list A) : existsb f (rev l) = existsb f l.
Proof.
  induction l as [|x l IH]; simpl; [reflexivity|].
  rewrite existsb_app, IH. simpl. now rewrite orb_false_r, orb_comm.
Qed.

Lemma forallb_rev {A} (f : A -> bool) (l : list A) : forallb f (rev l) = forallb f l.
Proof.
  induction l as [|x l IH]; simpl; [reflexivity|].
  rewrite forallb_app, IH. simpl. now rewrite andb_true_r, andb_comm.
Qed.

(** The regular expression on a newline-free name [p/vd]. *)
Lemma module_major_version_suffix (p d : string) :
  has_newline p = false -> p <> EmptyString -> d <> EmptyString -> all_digits d = true ->
  module_major_version (p ++ "/v" ++ d)%string = Some (decimal_value (list_ascii_of_string d)).
Proof.
  intros Hp Hpne Hdne Hd.
  assert (Hrev : rev (list_ascii_of_string (p ++ "/v" ++ d)%string) =
                 rev (list_ascii_of_string d) ++ "v"%char :: "/"%char :: rev (list_ascii_of_string p)).
  { rewrite !list_ascii_of_string_app, !rev_app_distr. simpl. now rewrite <- app_assoc. }
  unfold all_digits in Hd. rewrite <- forallb_rev in Hd.
  unfold has_newline in Hp. rewrite <- existsb_rev in Hp.
  assert (Hl : List.length (rev (list_ascii_of_string p)) <> 0%nat).
  { rewrite length_rev. destruct p; [contradiction | discriminate]. }
  unfold module_major_version. rewrite Hrev.
  destruct (rev (list_ascii_of_string d)) as [|c r] eqn:Er.
  - exfalso. apply Hdne. rewrite <- (string_of_list_ascii_of_string d).
    apply (f_equal (@rev ascii)) in Er. rewrite rev_involutive in Er. now rewrite Er.
  - simpl in Hd. apply andb_prop in Hd as [Hc Hr].
    rewrite <- app_comm_cons. cbv zeta. rewrite (digit_not_newline _ Hc).
    rewrite app_comm_cons.
    rewrite (take_digits_app (c :: r)); [| simpl; now rewrite Hc, Hr | exact slash_v_not_digit].
    rewrite Hp.
    destruct (List.length (rev (list_ascii_of_string p))) eqn:El; [contradiction|].
    cbv [andb negb Nat.eqb]. change (Ascii.eqb "v" "v") with true.
    change (Ascii.eqb "/" "/") with true. cbv iota.
    now rewrite <- Er, rev_involutive.
Qed.

(** Any match of the regular expression on a newline-free name comes
    from such a decomposition. *)
Lemma module_major_version_match (name : string) (n : nat) :
  has_newline name = false -> module_major_version name = Some n ->
  exists p d, name = (p ++ "/v" ++ d)%string /\ p <> EmptyString /\ d <> EmptyString /\
              all_digits d = true.
Proof.
  intros Hnl E. unfold module_major_version in E.
  assert (Hr : existsb (Ascii.eqb "010"%char) (rev (list_ascii_of_string name)) = false)
    by (rewrite existsb_rev; exact Hnl).
  destruct (rev (list_ascii_of_string name)) as [|c r] eqn:Er; [discriminate|].
  cbn [existsb] in Hr. apply orb_false_elim in Hr as [Hc _].
  rewrite Ascii.eqb_sym in Hc. cbv beta iota zeta in E. rewrite Hc in E.
  destruct (take_digits (c :: r)) as [ds rest] eqn:Et.
  apply take_digits_split in Et as [Ecr Hds].
  destruct ds as [|c0 ds']; [discriminate|].
  destruct rest as [|v [|sl pre]]; try discriminate.
  destruct (Ascii.eqb v "v"%char) eqn:Ev; [|discriminate].
  destruct (Ascii.eqb sl "/"%char) eqn:Es; [|discriminate].
  destruct pre as [|q pre']; [discriminate|].
  apply Ascii.eqb_eq in Ev, Es. subst v sl.
  exists (string_of_list_ascii (rev (q :: pre'))), (string_of_list_ascii (rev (c0 :: ds'))).
  split; [|split; [|split]].
  - rewrite <- (string_of_list_ascii_of_string name).
    rewrite <- (rev_involutive (list_ascii_of_string name)), Er, Ecr.
    change "/v"%string with (string_of_list_ascii ["/"%char; "v"%char]).
    rewrite <- !string_of_list_ascii_app. f_equal.
    rewrite rev_app_distr. simpl. now rewrite <- !app_assoc.
  - intros H. apply (f_equal list_ascii_of_string) in H.
    rewrite list_ascii_of_string_of_list_ascii in H. simpl in H.
    destruct (rev pre'); discriminate.
  - intros H. apply (f_equal list_ascii_of_string) in H.
    rewrite list_ascii_of_string_of_list_ascii in H. simpl in H.
    destruct (rev ds'); discriminate.
  - unfold all_digits. rewrite list_ascii_of_string_of_list_ascii, forallb_rev. exact Hds.
Qed.

(** Claim C3: what the code computes. For a module name without a
    newline, the candidate major versions are exactly [[N]] when the name
    is a non-empty prefix, then [/v], then decimal digits whose value [N]
    is not 0 (so also for a name ending in [/v1], and [/v02] gives [[2]]);
    they are [[1; 0]] when those digits have the value 0, and for every
    name that cannot be written that way. *)
Theorem major_versions_to_try_spec (name : string) (Hnl : has_newline name = false) :
  (forall p d, name = (p ++ "/v" ++ d)%string -> p <> EmptyString -> d <> EmptyString ->
     all_digits d = true ->
     major_versions_to_try name =
       (if (decimal_value (list_ascii_of_string d) =? 0)%nat then [1; 0]%nat
        else [decimal_value (list_ascii_of_string d)])) /\
  ((forall p d, name = (p ++ "/v" ++ d)%string -> p <> EmptyString -> d <> EmptyString ->
      all_digits d = false) ->
   major_versions_to_try name = [1; 0]%nat).
Proof.
  split.
  - intros p d -> Hp Hd Hdig. unfold major_versions_to_try.
    unfold has_newline in Hnl. rewrite !list_ascii_of_string_app, !existsb_app in Hnl.
    apply orb_false_elim in Hnl as [Hnp _].
    rewrite module_major_version_suffix; auto.
  - intros Hno. unfold major_versions_to_try.
    destruct (module_major_version name) as [n|] eqn:E; [|reflexivity].
    destruct (module_major_version_match name n Hnl E) as [p [d [Hn [Hp [Hd Hdig]]]]].
    rewrite (Hno p d Hn Hp Hd) in Hdig. discriminate.
Qed.

(** Witness for C3: [example.com/a/v2] as [example.com/a] and [2]. *)
Lemma major_versions_to_try_spec_witness :
  has_newline "example.com/a/v2" = false /\
  major_versions_to_try "example.com/a/v2" = [2%nat].
Proof.
  split; [reflexivity|].
  apply (proj1 (major_versions_to_try_spec "example.com/a/v2" eq_refl)
           "example.com/a" "2"); [reflexivity | discriminate | discriminate | reflexivity].
Defined.

(** Counterexample to C3 as stated: a name ending in [/v1] gets the single
    candidate [1], not [[1; 0]]. With the candidates [[1; 0]] the tag
    [v0.5.0] on the commit would be the version; with the candidate [1]
    of the code the reifier ignores it and builds the pseudo-version
    [v1.0.0-...] instead. *)
Lemma major_versions_to_try_v1_cex :
  major_versions_to_try "example.com/a/v1" = [1%nat] /\
  major_versions_to_try "example.com/a/v1" <> [1; 0]%nat /\
  first_tag parse_semver_example core_gt ["v0.5.0"] None [1; 0]%nat = Some ("v0.5.0", 0%nat) /\
  get_golang_version parse_semver_example core_gt ["v0.5.0"] ["v0.5.0"]
    (mkCommit "abcdef0123456789abcdef0123456789abcdef01" 1704164645%Z)
    "example.com/a/v1" (mkRootedPath ["r"] ["r"])
  = Ok "v1.0.0-20240102030405-abcdef012345".
Proof. split; [reflexivity | split; [discriminate | split; vm_compute; reflexivity]]. Qed.

(* ------------------------------------------------------------------ *)
(** ** Pseudo-versions *)

(** Claim C2: for every commit, optional pseudo-base tag, optional module
    major version and subpath, and whatever the semantic-version parser
    is, [_get_golang_pseudo_version] returns, with [ts] the commit's UTC
    time as [%Y%m%d%H%M%S] and [hash] the first 12 characters of its id:
    with no tag, [v<major or 0>.0.0-<ts>-<hash>]; with a tag whose parsed
    version has a prerelease, [v<that version>.0.<ts>-<hash>]; with a tag
    whose parsed version has none, [v<major>.<minor>.<patch + 1>-0.<ts>-<hash>]
    (the patch bump drops build metadata). *)
Theorem golang_pseudo_version_spec (parse_semver : string -> option SemVer)
    (commit : Commit) (tag : option string) (module_major_version : option nat)
    (subpath : option string) :
  let ts := utc_timestamp (committed_date commit) in
  let hash := substring 0 12 (hexsha commit) in
  (tag = None ->
   get_golang_pseudo_version parse_semver commit tag module_major_version subpath =
   Ok ("v" ++ match module_major_version with Some n => nat_to_string n | None => "0" end ++
       ".0.0-" ++ ts ++ "-" ++ hash)%string) /\
  (forall tag_name v, tag = Some tag_name ->
   get_semantic_version_from_tag parse_semver tag_name subpath = Some v ->
   truthy (sv_prerelease v) <> None ->
   get_golang_pseudo_version parse_semver commit tag module_major_version subpath =
   Ok ("v" ++ semver_str v ++ ".0." ++ ts ++ "-" ++ hash)%string) /\
  (forall tag_name v, tag = Some tag_name ->
   get_semantic_version_from_tag parse_semver tag_name subpath = Some v ->
   truthy (sv_prerelease v) = None ->
   get_golang_pseudo_version parse_semver commit tag module_major_version subpath =
   Ok ("v" ++ nat_to_string (sv_major v) ++ "." ++ nat_to_string (sv_minor v) ++ "." ++
       nat_to_string (S (sv_patch v)) ++ "-0." ++ ts ++ "-" ++ hash)%string).
Proof.
  intros ts hash. unfold get_golang_pseudo_version. split; [|split].
  - intros ->. destruct module_major_version as [[|n]|]; reflexivity.
  - intros tag_name v -> Hv Hp. rewrite Hv.
    destruct (truthy (sv_prerelease v)) as [p|]; [reflexivity | contradiction].
  - intros tag_name v -> Hv Hp. rewrite Hv, Hp.
    unfold semver_str, bump_patch. cbn [sv_major sv_minor sv_patch sv_prerelease sv_build truthy].
    rewrite str_app_nil_r, !str_app_assoc. reflexivity.
Qed.

(** Witness for C2: the tag [v1.2.3] on a commit of 2024-01-02T03:04:05Z
    gives [v1.2.4-0.20240102030405-abcdef012345]. *)
Lemma golang_pseudo_version_spec_witness :
  get_golang_pseudo_version parse_semver_example
    (mkCommit "abcdef0123456789abcdef0123456789abcdef01" 1704164645%Z)
    (Some "v1.2.3") None None =
  Ok "v1.2.4-0.20240102030405-abcdef012345".
Proof.
  rewrite (proj2 (proj2 (golang_pseudo_version_spec parse_semver_example
    (mkCommit "abcdef0123456789abcdef0123456789abcdef01" 1704164645%Z)
    (Some "v1.2.3") None None)) "v1.2.3" (mkSemVer 1 2 3 None None) eq_refl).
  - vm_compute. reflexivity.
  - vm_compute. reflexivity.
  - reflexivity.
Defined.

(* ================================================================== *)
(** * Further properties of the module *)

(* ------------------------------------------------------------------ *)
(** ** The main module *)

Lemma join_with_slash_not_dot (sub : list string) :
  Forall (fun s => s <> "."%string) sub -> sub <> [] -> join_with "/" sub <> "."%string.
Proof.
  intros Hf Hne. destruct sub as [|s1 [|s2 rest]]; [contradiction| |].
  - inversion Hf; subst. simpl. assumption.
  - change (join_with "/" (s1 :: s2 :: rest)) with (s1 ++ "/" ++ join_with "/" (s2 :: rest))%string.
    destruct s1 as [|c s1]; simpl; intros H; inversion H.
    destruct s1; discriminate.
Qed.

Lemma path_str_plain (sub : list string) :
  Forall (fun s => s <> "."%string /\ s <> "/"%string) sub -> sub <> [] ->
  path_str sub = join_with "/" sub.
Proof.
  intros Hf Hne. destruct sub as [|s rest]; [contradiction|].
  inversion Hf as [|? ? [_ Hs] _]; subst. unfold path_str.
  destruct (String.eqb_spec s "/"); [contradiction | reflexivity].
Qed.

(** [_create_main_module_from_parsed_data]: for the directory [sub]
    below the repository root, the main module record is named after the
    parsed path (also as its original name), has the parsed version and
    [main = False], and its real path is the repository name, extended by
    [/sub] when the directory is not the root; a missing or empty version
    raises [RuntimeError]. *)
Theorem create_main_module_spec (root sub : list string) (repo_name : string)
    (pm : ParsedModule) :
  Forall (fun s => s <> "."%string /\ s <> "/"%string) sub ->
  create_main_module_from_parsed_data (mkRootedPath root (root ++ sub)) repo_name pm =
  match truthy (pm_version pm) with
  | None => Err (RuntimeError ("Version was not identified for main module at " ++ path_str sub))
  | Some v =>
      Ok (mkModule (pm_path pm) (pm_path pm)
            (match sub with [] => repo_name | _ => repo_name ++ "/" ++ join_with "/" sub end) v
            false)
  end.
Proof.
  intros Hf. unfold create_main_module_from_parsed_data, subpath_from_root. simpl.
  rewrite strip_parts_app.
  destruct (truthy (pm_version pm)) as [v|]; [|reflexivity].
  destruct sub as [|s rest]; [reflexivity|].
  rewrite path_str_plain by (assumption || discriminate).
  destruct (String.eqb_spec (join_with "/" (s :: rest)) ".") as [E|_]; [|reflexivity].
  exfalso. revert E. apply join_with_slash_not_dot; [|discriminate].
  eapply Forall_impl; [|exact Hf]. intros a [H _]; exact H.
Qed.

(** Witness: the module directory [a/b] of a checkout at [/src]. *)
Lemma create_main_module_spec_witness :
  create_main_module_from_parsed_data (mkRootedPath ["src"] ["src"; "a"; "b"]) "github.com/org/r"
    (mkParsedModule "example.com/m" (Some "v1.0.0") true None)
  = Ok (mkModule "example.com/m" "example.com/m" "github.com/org/r/a/b" "v1.0.0" false).
Proof.
  apply (create_main_module_spec ["src"] ["a"; "b"] "github.com/org/r"
           (mkParsedModule "example.com/m" (Some "v1.0.0") true None)).
  repeat constructor; discriminate.
Defined.

(* ------------------------------------------------------------------ *)
(** ** Environment variables of the output *)

Lemma dict_get_not_in {V} (d : list (string * V)) k :
  ~ In k (map fst d) -> dict_get d k = None.
Proof.
  induction d as [|[k' v'] d IH]; simpl; intros H; [reflexivity|].
  destruct (String.eqb_spec k k'); [subst; tauto | apply IH; tauto].
Qed.

Lemma fold_dict_set_get {V} (cfg d : list (string * V)) k :
  NoDup (map fst cfg) ->
  dict_get (fold_left (fun d kv => dict_set d (fst kv) (snd kv)) cfg d) k =
  match dict_get cfg k with Some v => Some v | None => dict_get d k end.
Proof.
  revert d; induction cfg as [|[k1 v1] cfg IH]; intros d Hnd; simpl; [reflexivity|].
  inversion Hnd as [|? ? Hnin Hnd']; subst.
  rewrite IH by assumption.
  destruct (String.eqb_spec k k1) as [->|Ne].
  - rewrite dict_get_not_in by assumption. apply dict_get_set_same.
  - destruct (dict_get cfg k); [reflexivity|]. apply dict_get_set_other. congruence.
Qed.

Lemma dict_set_keys_prefix {V} (d : list (string * V)) k v :
  exists suffix, map fst (dict_set d k v) = map fst d ++ suffix.
Proof.
  induction d as [|[k' v'] d [suf IH]]; simpl.
  - exists [k]; reflexivity.
  - destruct (String.eqb_spec k k') as [->|_]; simpl.
    + exists []; rewrite app_nil_r; reflexivity.
    + exists suf; rewrite IH; reflexivity.
Qed.

Lemma fold_dict_set_keys_prefix {V} (cfg d : list (string * V)) :
  exists suffix,
    map fst (fold_left (fun d kv => dict_set d (fst kv) (snd kv)) cfg d) = map fst d ++ suffix.
Proof.
  revert d; induction cfg as [|[k1 v1] cfg IH]; intros d; simpl.
  - exists []; rewrite app_nil_r; reflexivity.
  - destruct (IH (dict_set d k1 v1)) as [s1 E1].
    destruct (dict_set_keys_prefix d k1 v1) as [s2 E2].
    exists (s2 ++ s1). rewrite E1, E2, app_assoc. reflexivity.
Qed.

(** [fetch_gomod_source]'s environment variables: a variable set in the
    [gomod] section of the configuration (a dict, so without repeated
    names) takes its configured value, every other one keeps the default
    ([GOCACHE] and [GOPATH] at [deps/gomod], [GOMODCACHE] at
    [deps/gomod/pkg/mod]); the three defaults stay first, in this order. *)
Theorem gomod_env_vars_spec (config_gomod_env : list (string * EnvVar)) :
  NoDup (map fst config_gomod_env) ->
  (forall k, dict_get (gomod_env_vars config_gomod_env) k =
             match dict_get config_gomod_env k with
             | Some v => Some v
             | None => dict_get default_gomod_env_vars k
             end) /\
  firstn 3 (map fst (gomod_env_vars config_gomod_env)) = ["GOCACHE"; "GOPATH"; "GOMODCACHE"]%string.
Proof.
  intros Hnd. split.
  - intros k. apply fold_dict_set_get, Hnd.
  - unfold gomod_env_vars.
    destruct (fold_dict_set_keys_prefix config_gomod_env default_gomod_env_vars) as [s E].
    rewrite E. reflexivity.
Qed.

(** Witness: a configuration that overrides [GOPATH] and adds [FOO]. *)
Lemma gomod_env_vars_spec_witness :
  dict_get (gomod_env_vars [("GOPATH", mkEnvVar "x" "literal"); ("FOO", mkEnvVar "1" "literal")])
    "GOMODCACHE" = Some (mkEnvVar "deps/gomod/pkg/mod" "path").
Proof.
  rewrite (proj1 (gomod_env_vars_spec [("GOPATH", mkEnvVar "x" "literal"); ("FOO", mkEnvVar "1" "literal")]
                    ltac:(repeat constructor; simpl; intuition discriminate))).
  reflexivity.
Defined.

(* ------------------------------------------------------------------ *)
(** ** Retries of the download command *)

Lemma backoff_loop_ok fuel call n t waits k out :
  t < k -> k <= n -> k - t <= fuel ->
  (forall j, t < j < k -> exists e, call j = inr e) -> call k = inl out ->
  backoff_loop fuel call n t waits =
  Some (inl out, k, waits ++ map (fun j => Nat.pow 2 j) (seq t (k - 1 - t))).
Proof.
  revert t waits. induction fuel as [|fuel IH]; intros t waits Htk Hkn Hf Hfail Hok; [lia|].
  cbn [backoff_loop]. destruct (Nat.eq_dec (S t) k) as [<-|Ne].
  - rewrite Hok. replace (S t - 1 - t) with 0 by lia. simpl. rewrite app_nil_r. reflexivity.
  - destruct (Hfail (S t) ltac:(lia)) as [e He]. rewrite He.
    destruct (Nat.eqb_spec (S t) n) as [E|_]; [lia|].
    rewrite (IH (S t)) by first [lia | exact Hok | intros j Hj; apply Hfail; lia].
    rewrite <- app_assoc. do 3 f_equal.
    replace (k - 1 - t) with (S (k - 1 - S t)) by lia. simpl. rewrite Nat.sub_0_r. reflexivity.
Qed.

Lemma backoff_loop_fail fuel call n t waits :
  t < n -> n - t <= fuel ->
  (forall j, t < j <= n -> exists e, call j = inr e) ->
  exists e, backoff_loop fuel call n t waits =
            Some (inr e, n, waits ++ map (fun j => Nat.pow 2 j) (seq t (n - 1 - t))).
Proof.
  revert t waits. induction fuel as [|fuel IH]; intros t waits Htn Hf Hfail; [lia|].
  cbn [backoff_loop]. destruct (Hfail (S t) ltac:(lia)) as [e He]. rewrite He.
  destruct (Nat.eqb_spec (S t) n) as [<-|Ne].
  - exists e. replace (S t - 1 - t) with 0 by lia. simpl. rewrite app_nil_r. reflexivity.
  - destruct (IH (S t) (waits ++ [Nat.pow 2 (S t - 1)])) as [e' E]; try lia.
    { intros j Hj; apply Hfail; lia. }
    exists e'. rewrite E, <- app_assoc. do 3 f_equal.
    replace (n - 1 - t) with (S (n - 1 - S t)) by lia. simpl. rewrite Nat.sub_0_r. reflexivity.
Qed.

Lemma backoff_loop_never fuel call t waits :
  (forall j, exists e, call j = inr e) -> backoff_loop fuel call 0 t waits = None.
Proof.
  revert t waits. induction fuel as [|fuel IH]; intros t waits Hfail; simpl; [reflexivity|].
  destruct (Hfail (S t)) as [e ->]. apply IH, Hfail.
Qed.

(** [_run_download_cmd] with [n >= 1] tries: when the first [k - 1] runs
    fail and the [k]-th ([k <= n]) succeeds, its output is returned after
    [k] calls and the waits 1, 2, 4, ... seconds; when all [n] runs fail,
    the [GoModError] says the command was tried [n] times, after [n] calls. *)
Theorem run_download_cmd_spec (fuel : nat) (attempt : nat -> ProcOutcome) (cmd : list string)
    (n : nat) :
  1 <= n -> n <= fuel ->
  (forall k out, 1 <= k <= n -> (forall j, 1 <= j < k -> exists rc, attempt j = ProcFailed rc) ->
     attempt k = ProcOk out ->
     run_download_cmd fuel attempt cmd n =
     Some (inl out, k, map (fun j => Nat.pow 2 j) (seq 0 (k - 1)))) /\
  ((forall j, 1 <= j <= n -> exists rc, attempt j = ProcFailed rc) ->
   run_download_cmd fuel attempt cmd n =
   Some (inr ("Processing gomod dependencies failed. Cachi2 tried the " ++ join_with " " cmd ++
              " command " ++ nat_to_string n ++ " times.")%string,
         n, map (fun j => Nat.pow 2 j) (seq 0 (n - 1)))).
Proof.
  intros Hn Hfuel. split.
  - intros k out Hk Hfail Hok. unfold run_download_cmd.
    rewrite (backoff_loop_ok fuel _ n 0 [] k out) by
      first [ lia
            | intros j Hj; destruct (Hfail j ltac:(lia)) as [rc ->]; eexists; reflexivity
            | unfold run_gomod_cmd; rewrite Hok; reflexivity ].
    rewrite Nat.sub_0_r. reflexivity.
  - intros Hfail. unfold run_download_cmd.
    destruct (backoff_loop_fail fuel (fun k => run_gomod_cmd cmd (attempt k)) n 0 [])
      as [e ->]; try lia.
    + intros j Hj. destruct (Hfail j ltac:(lia)) as [rc ->]. eexists; reflexivity.
    + rewrite Nat.sub_0_r. reflexivity.
Qed.

(** Witness: two failed runs, then a successful third one. *)
Lemma run_download_cmd_spec_witness :
  run_download_cmd 5 (fun k => if (k <? 3)%nat then ProcFailed 1%Z else ProcOk "out")
    ["go"; "mod"; "download"]%string 5
  = Some (inl "out"%string, 3, [1; 2]).
Proof.
  apply (proj1 (run_download_cmd_spec 5 (fun k => if (k <? 3)%nat then ProcFailed 1%Z else ProcOk "out")
                  ["go"; "mod"; "download"]%string 5 ltac:(lia) ltac:(lia)) 3 "out"%string).
  - lia.
  - intros j Hj. exists 1%Z. destruct (Nat.ltb_spec j 3); [reflexivity | lia].
  - reflexivity.
Defined.

(** [_run_download_cmd] with [gomod_download_max_tries] set to 0: the
    count of tries never equals 0, so a command that keeps failing is run
    again and again, however many calls are allowed. *)
Theorem run_download_cmd_zero_tries (fuel : nat) (attempt : nat -> ProcOutcome)
    (cmd : list string) :
  (forall j, exists rc, attempt j = ProcFailed rc) -> run_download_cmd fuel attempt cmd 0 = None.
Proof.
  intros Hfail. unfold run_download_cmd. rewrite backoff_loop_never; [reflexivity|].
  intros j. destruct (Hfail j) as [rc ->]. eexists; reflexivity.
Qed.

(** Witness: a command that always fails with return code 1. *)
Lemma run_download_cmd_zero_tries_witness :
  run_download_cmd 50 (fun _ => ProcFailed 1%Z) ["go"; "mod"; "download"]%string 0 = None.
Proof.
  apply run_download_cmd_zero_tries. intros j. exists 1%Z. reflexivity.
Defined.

(* ------------------------------------------------------------------ *)
(** ** Module records *)

Lemma create_module_cases gv main dir pm :
  (forall m, create_module gv main dir pm = Ok m ->
     m_original_name m = pm_path pm /\ m_main m = false) /\
  (forall e, create_module gv main dir pm = Err e ->
     exists r, pm_replace pm = Some r /\ truthy (pm_version r) = None /\
               join_within_root dir (pm_path r) = Err e).
Proof.
  unfold create_module. destruct (pm_replace pm) as [r|].
  - destruct (truthy (pm_version r)) as [v|] eqn:Hv.
    + split; [intros m H; inversion H; subst; auto | intros e H; discriminate].
    + destruct (join_within_root dir (pm_path r)) as [res|e0] eqn:Hj; simpl.
      * split; [intros m H; inversion H; subst; auto | intros e H; discriminate].
      * split; [intros m H; discriminate | intros e H; inversion H; subst; eauto].
  - split; [intros m H; inversion H; subst; auto | intros e H; discriminate].
Qed.

(** [_create_modules_from_parsed_data]: each parsed module gives one
    record, in order, whose original name is the parsed path and whose
    [main] flag is [False]; the only failure is the [join_within_root] of
    a local replacement (a replacement without a version), and it is the
    error of that join. *)
Theorem create_modules_records (gv : string -> RootedPath -> string) (main : Module)
    (dir : RootedPath) (pms : list ParsedModule) :
  (forall ms, create_modules_from_parsed_data gv main dir pms = Ok ms ->
     Forall2 (fun pm m => m_original_name m = pm_path pm /\ m_main m = false) pms ms) /\
  (forall e, create_modules_from_parsed_data gv main dir pms = Err e ->
     exists pm r, In pm pms /\ pm_replace pm = Some r /\ truthy (pm_version r) = None /\
                  join_within_root dir (pm_path r) = Err e).
Proof.
  unfold create_modules_from_parsed_data.
  induction pms as [|pm pms [IHok IHerr]]; simpl.
  - split; [intros ms H; inversion H; constructor | intros e H; discriminate].
  - destruct (create_module_cases gv main dir pm) as [Cok Cerr].
    destruct (create_module gv main dir pm) as [m|e0] eqn:Hc; simpl.
    + destruct (map_result (create_module gv main dir) pms) as [ms'|e1]; simpl.
      * split; [intros ms H; inversion H; subst; constructor; auto | intros e H; discriminate].
      * split; [intros ms H; discriminate|].
        intros e H; inversion H; subst.
        destruct (IHerr e eq_refl) as [pm' [r [Hin Hr]]]. exists pm', r; auto.
    + split; [intros ms H; discriminate|].
      intros e H; inversion H; subst.
      destruct (Cerr e eq_refl) as [r Hr]. exists pm, r; auto.
Qed.

(** Witness: a local replacement [../outside] that leaves the root. *)
Lemma create_modules_records_witness :
  exists pm r,
    In pm [mkParsedModule "example.com/b" (Some "v1.0.0") false
             (Some (mkParsedModule "../outside" None false None))] /\
    pm_replace pm = Some r /\ truthy (pm_version r) = None /\
    join_within_root (mkRootedPath ["repo"] ["repo"]) (pm_path r) =
    Err (PathOutsideRoot "path ../outside is outside the root" "").
Proof.
  apply (proj2 (create_modules_records (fun _ _ => "v0.0.0"%string)
    (mkModule "example.com/a" "example.com/a" "github.com/org/a" "v1.2.3" false)
    (mkRootedPath ["repo"] ["repo"])
    [mkParsedModule "example.com/b" (Some "v1.0.0") false
       (Some (mkParsedModule "../outside" None false None))])).
  vm_compute. reflexivity.
Defined.

(* ------------------------------------------------------------------ *)
(** ** The module index of package creation *)

Lemma index_modules_snoc ms x :
  index_modules (ms ++ [x]) = dict_set (index_modules ms) (m_original_name x) x.
Proof. unfold index_modules. rewrite fold_left_app. reflexivity. Qed.

Lemma index_modules_get ms k m :
  dict_get (index_modules ms) k = Some m ->
  exists ms1 ms2, ms = ms1 ++ m :: ms2 /\ m_original_name m = k /\
                  Forall (fun m' => m_original_name m' <> k) ms2.
Proof.
  induction ms as [|x ms IH] using rev_ind; intros H; [discriminate|].
  rewrite index_modules_snoc in H.
  destruct (String.eqb_spec (m_original_name x) k) as [<-|Ne].
  - rewrite dict_get_set_same in H. inversion H; subst.
    exists ms, []. auto.
  - rewrite dict_get_set_other in H by assumption.
    destruct (IH H) as [ms1 [ms2 [-> [Hk Hf]]]].
    exists ms1, (ms2 ++ [x]). split; [rewrite <- app_assoc; reflexivity|].
    split; [assumption|]. apply Forall_app; auto.
Qed.

Lemma index_modules_none ms k :
  ~ In k (map m_original_name ms) -> dict_get (index_modules ms) k = None.
Proof.
  induction ms as [|x ms IH] using rev_ind; intros H; [reflexivity|].
  rewrite index_modules_snoc, map_app in *. simpl in H.
  rewrite dict_get_set_other by (intros E; apply H; apply in_or_app; right; left; congruence).
  apply IH. intros Hin; apply H, in_or_app; left; exact Hin.
Qed.

Lemma dict_get_some_in {V} (d : list (string * V)) k :
  In k (map fst d) -> exists v, dict_get d k = Some v.
Proof.
  induction d as [|[k' v'] d IH]; simpl; [tauto|]. intros H.
  destruct (String.eqb_spec k k'); [eauto|]. apply IH. destruct H; [congruence | assumption].
Qed.

Lemma index_modules_in ms k :
  In k (map m_original_name ms) -> exists m, dict_get (index_modules ms) k = Some m.
Proof.
  induction ms as [|x ms IH] using rev_ind; simpl; [tauto|].
  rewrite index_modules_snoc, map_app. intros H.
  destruct (String.eqb_spec (m_original_name x) k) as [<-|Ne].
  - exists x. apply dict_get_set_same.
  - rewrite dict_get_set_other by assumption. apply IH.
    apply in_app_or in H as [H|[H|[]]]; [assumption | contradiction].
Qed.

Lemma index_modules_keys ms k :
  In k (map fst (index_modules ms)) <-> In k (map m_original_name ms).
Proof.
  split; intros H.
  - destruct (dict_get_some_in _ _ H) as [m Hm].
    destruct (index_modules_get ms k m Hm) as [ms1 [ms2 [-> [<- _]]]].
    rewrite map_app. apply in_or_app. right. left. reflexivity.
  - destruct (index_modules_in ms k H) as [m Hm].
    destruct (in_dec string_dec k (map fst (index_modules ms))) as [|Hn]; [assumption|].
    apply dict_get_not_in in Hn. congruence.
Qed.

(** [_create_package] for a non-standard package that names its module:
    the module is looked up by its path among the original names of the
    records, where a later record overrides an earlier one with the same
    original name; a path that is no record's original name raises
    [KeyError]. *)
Theorem create_package_module_lookup (ms : list Module) (pkg : ParsedPackage)
    (pmod : ParsedModule) :
  pp_standard pkg = false -> pp_module pkg = Some pmod ->
  (~ In (pm_path pmod) (map m_original_name ms) ->
   create_package (index_modules ms) pkg = Err (KeyError (pm_path pmod))) /\
  (forall p, create_package (index_modules ms) pkg = Ok (APackage p) ->
   exists ms1 ms2, ms = ms1 ++ p_module p :: ms2 /\
                   m_original_name (p_module p) = pm_path pmod /\
                   Forall (fun m => m_original_name m <> pm_path pmod) ms2).
Proof.
  intros Hstd Hmod. unfold create_package. rewrite Hstd, Hmod. split.
  - intros Hn. rewrite index_modules_none by assumption. reflexivity.
  - intros p. destruct (dict_get (index_modules ms) (pm_path pmod)) as [m|] eqn:Hg; [|discriminate].
    simpl. destruct (resolve_package_relative_path pkg m); [|discriminate].
    simpl. intros H; inversion H; subst. simpl. apply index_modules_get, Hg.
Qed.

(** Witness: two records with the original name [example.com/b]; the
    package [example.com/b/sub] attaches to the second one. *)
Lemma create_package_module_lookup_witness :
  exists ms1 ms2,
    [mkModule "example.com/b" "example.com/b" "example.com/b" "v1.0.0" false;
     mkModule "example.com/c" "example.com/b" "example.com/c" "v1.1.0" false]
    = ms1 ++ mkModule "example.com/c" "example.com/b" "example.com/c" "v1.1.0" false :: ms2 /\
    m_original_name (mkModule "example.com/c" "example.com/b" "example.com/c" "v1.1.0" false)
    = "example.com/b"%string /\
    Forall (fun m => m_original_name m <> "example.com/b"%string) ms2.
Proof.
  apply (proj2 (create_package_module_lookup
    [mkModule "example.com/b" "example.com/b" "example.com/b" "v1.0.0" false;
     mkModule "example.com/c" "example.com/b" "example.com/c" "v1.1.0" false]
    (mkParsedPackage "example.com/b/sub" false (Some (mkParsedModule "example.com/b" None false None)))
    (mkParsedModule "example.com/b" None false None) eq_refl eq_refl)
    (mkPackage "sub" (mkModule "example.com/c" "example.com/b" "example.com/c" "v1.1.0" false))).
  vm_compute. reflexivity.
Defined.

(* ------------------------------------------------------------------ *)
(** ** The parent module of a package without module *)

Lemma max_by_len_acc (keys : list string) (acc : option string) :
  let r := fold_left (fun best k =>
               match best with
               | None => Some k
               | Some b => if (String.length b <? String.length k)%nat then Some k else Some b
               end) keys acc in
  (r = None <-> acc = None /\ keys = []) /\
  (forall b, r = Some b -> (acc = Some b \/ In b keys) /\
     (forall x, In x keys -> String.length x <= String.length b) /\
     (forall a, acc = Some a -> String.length a <= String.length b)).
Proof.
  revert acc. induction keys as [|k keys IH]; intros acc; simpl.
  - split; [tauto|]. intros b ->. split; [auto|]. split; [tauto|]. intros a H; inversion H; lia.
  - destruct (IH (match acc with
                  | None => Some k
                  | Some b => if (String.length b <? String.length k)%nat then Some k else Some b
                  end)) as [IH1 IH2].
    split.
    + rewrite IH1. destruct acc as [a|]; [destruct (String.length a <? String.length k)%nat|];
        split; intros H; destruct H; discriminate.
    + intros b Hb. destruct (IH2 b Hb) as [Hin [Hle Hacc]].
      destruct acc as [a|].
      * destruct (Nat.ltb_spec (String.length a) (String.length k)) as [Hlt|Hge].
        -- specialize (Hacc k eq_refl).
           split; [destruct Hin as [E|E]; [inversion E; right; left; reflexivity | right; right; exact E]|].
           split; [intros x [<-|Hx]; [exact Hacc | auto]|]. intros a' E; inversion E; subst; lia.
        -- specialize (Hacc a eq_refl).
           split; [destruct Hin as [E|E]; [left; exact E | right; right; exact E]|].
           split; [intros x [<-|Hx]; [lia | auto]|]. intros a' E; inversion E; subst; lia.
      * specialize (Hacc k eq_refl).
        split; [destruct Hin as [E|E]; [inversion E; right; left; reflexivity | right; right; exact E]|].
        split; [intros x [<-|Hx]; [exact Hacc | auto]|]. intros a' E; discriminate.
Qed.

Lemma max_by_len_some keys b :
  max_by_len keys = Some b ->
  In b keys /\ forall x, In x keys -> String.length x <= String.length b.
Proof.
  intros H. destruct (proj2 (max_by_len_acc keys None) b H) as [[H1|H1] [H2 _]];
    [discriminate | auto].
Qed.

(** [_find_parent_module_by_name]: the parent is a record whose
    non-empty original name is a path prefix of the import path and is at
    least as long (in characters) as every original name that is one; the
    lookup never raises [KeyError]; when no non-empty original name is a
    path prefix, it raises [RuntimeError]. *)
Theorem find_parent_module_longest (ms : list Module) (pkg : ParsedPackage) :
  (forall m, find_parent_module_by_name (index_modules ms) pkg = Ok m ->
     In m ms /\ m_original_name m <> ""%string /\
     is_relative_to (pp_import_path pkg) (m_original_name m) = true /\
     forall m', In m' ms -> is_relative_to (pp_import_path pkg) (m_original_name m') = true ->
                String.length (m_original_name m') <= String.length (m_original_name m)) /\
  (forall k, find_parent_module_by_name (index_modules ms) pkg <> Err (KeyError k)) /\
  ((forall m', In m' ms -> is_relative_to (pp_import_path pkg) (m_original_name m') = true ->
               m_original_name m' = ""%string) ->
   find_parent_module_by_name (index_modules ms) pkg =
   Err (RuntimeError "Package parent module was not found")).
Proof.
  unfold find_parent_module_by_name.
  set (cands := filter (is_relative_to (pp_import_path pkg)) (map fst (index_modules ms))).
  assert (Hc : forall x, In x cands <->
                 In x (map m_original_name ms) /\ is_relative_to (pp_import_path pkg) x = true).
  { intros x. unfold cands. rewrite filter_In, index_modules_keys. tauto. }
  destruct (max_by_len cands) as [b|] eqn:Hm.
  - destruct (max_by_len_some cands b Hm) as [Hb Hlen].
    unfold truthy. destruct (String.eqb_spec b "") as [->|Hne].
    + split; [intros m H; discriminate|]. split; [intros k H; discriminate|]. auto.
    + apply Hc in Hb as [Hbk Hbr].
      rewrite <- index_modules_keys in Hbk.
      destruct (dict_get_some_in _ _ Hbk) as [m Hg]. rewrite Hg.
      destruct (index_modules_get ms b m Hg) as [ms1 [ms2 [Hms [Hob _]]]].
      split; [|split].
      * intros m0 H; inversion H; subst m0. rewrite Hob. split; [rewrite Hms; apply in_or_app; right; left; reflexivity|].
        split; [assumption|]. split; [assumption|].
        intros m' Hin Hr. apply Hlen, Hc. split; [apply in_map; assumption | assumption].
      * intros k H; discriminate.
      * intros Hall. exfalso. apply Hne.
        apply in_map_iff in Hbk as [[k' m'] [Hk Hin]]. simpl in Hk. subst k'.
        rewrite <- Hob. apply Hall; [rewrite Hms; apply in_or_app; right; left; reflexivity|].
        rewrite Hob. assumption.
  - split; [intros m H; discriminate|]. split; [intros k H; discriminate|]. auto.
Qed.

(* ------------------------------------------------------------------ *)
(** ** The resolved module list *)

Lemma first_occurrences_incl seen l x : In x (first_occurrences seen l) -> In x l.
Proof.
  revert seen; induction l as [|m l IH]; intros seen; simpl; [tauto|].
  destruct (existsb (key_eqb (get_unique_key m)) seen).
  - intros H; right; eapply IH; exact H.
  - intros [H|H]; [left; assumption | right; eapply IH; exact H].
Qed.

(** The module list of [_resolve_gomod]: every module in it is either a
    downloaded module or the module of a package listed by [go list],
    which is then not a main module (so a main module enters the list only
    through the downloaded modules); the list is returned only when
    [_validate_local_replacements] accepts it, and its error is returned
    otherwise. *)
Theorem resolve_all_modules_spec (app_dir : RootedPath) (deps_all : list ParsedPackage)
    (downloaded_modules : list ParsedModule) :
  (forall ms, resolve_all_modules app_dir deps_all downloaded_modules = Ok ms ->
     validate_local_replacements ms app_dir = Ok tt /\
     forall m, In m ms ->
       In m downloaded_modules \/
       (pm_main m = false /\ exists pkg, In pkg deps_all /\ pp_module pkg = Some m)) /\
  (forall e, validate_local_replacements
               (deduplicate_resolved_modules (package_modules deps_all) downloaded_modules)
               app_dir = Err e ->
     resolve_all_modules app_dir deps_all downloaded_modules = Err e).
Proof.
  unfold resolve_all_modules. split.
  - intros ms. destruct (validate_local_replacements _ app_dir) as [[]|e] eqn:Hv; simpl;
      [|discriminate].
    intros H; inversion H; subst. split; [assumption|].
    intros m Hin. rewrite deduplicate_first_occurrences in Hin.
    apply first_occurrences_incl, in_app_or in Hin as [Hin|Hin]; [|left; assumption].
    right. unfold package_modules in Hin. apply in_flat_map in Hin as [pkg [Hpkg Hm]].
    destruct (pp_module pkg) as [m'|] eqn:Hpm; [|contradiction].
    destruct (pm_main m') eqn:Hmain; [contradiction|].
    destruct Hm as [<-|[]]. split; [assumption|]. exists pkg; auto.
  - intros e ->. reflexivity.
Qed.

(** Witness: a main module listed by [go list] is left out. *)
Lemma resolve_all_modules_spec_witness :
  resolve_all_modules (mkRootedPath ["repo"] ["repo"])
    [mkParsedPackage "example.com/m" false (Some (mkParsedModule "example.com/m" None true None));
     mkParsedPackage "example.com/d/x" false (Some (mkParsedModule "example.com/d" (Some "v1.0.0") false None))]
    [mkParsedModule "example.com/d" (Some "v1.0.0") false None]
  = Ok [mkParsedModule "example.com/d" (Some "v1.0.0") false None] /\
  validate_local_replacements [mkParsedModule "example.com/d" (Some "v1.0.0") false None]
    (mkRootedPath ["repo"] ["repo"]) = Ok tt.
Proof.
  split; [vm_compute; reflexivity|].
  apply (proj1 (resolve_all_modules_spec (mkRootedPath ["repo"] ["repo"])
    [mkParsedPackage "example.com/m" false (Some (mkParsedModule "example.com/m" None true None));
     mkParsedPackage "example.com/d/x" false (Some (mkParsedModule "example.com/d" (Some "v1.0.0") false None))]
    [mkParsedModule "example.com/d" (Some "v1.0.0") false None])).
  vm_compute. reflexivity.
Defined.

(** Witness for [find_parent_module_longest]: the package
    [example.com/a/b/c] without module goes to [example.com/a/b], not to
    [example.com/a]. *)
Lemma find_parent_module_longest_witness :
  In (mkModule "example.com/a/b" "example.com/a/b" "example.com/a/b" "v1.0.0" false)
     [mkModule "example.com/a" "example.com/a" "example.com/a" "v1.0.0" false;
      mkModule "example.com/a/b" "example.com/a/b" "example.com/a/b" "v1.0.0" false] /\
  m_original_name (mkModule "example.com/a/b" "example.com/a/b" "example.com/a/b" "v1.0.0" false)
    <> ""%string /\
  is_relative_to "example.com/a/b/c" "example.com/a/b" = true /\
  (forall m', In m' [mkModule "example.com/a" "example.com/a" "example.com/a" "v1.0.0" false;
                     mkModule "example.com/a/b" "example.com/a/b" "example.com/a/b" "v1.0.0" false] ->
     is_relative_to "example.com/a/b/c" (m_original_name m') = true ->
     String.length (m_original_name m') <= String.length "example.com/a/b").
Proof.
  apply (proj1 (find_parent_module_longest
    [mkModule "example.com/a" "example.com/a" "example.com/a" "v1.0.0" false;
     mkModule "example.com/a/b" "example.com/a/b" "example.com/a/b" "v1.0.0" false]
    (mkParsedPackage "example.com/a/b/c" false None))).
  vm_compute. reflexivity.
Defined.

(* ------------------------------------------------------------------ *)
(** ** The highest semantic version tag *)

Section HighestTag.

Variable parse_semver : string -> option SemVer.
Variable semver_gt : SemVer -> SemVer -> bool.
Variable major_version : nat.
Variable subpath : option string.

Let cand := is_version_candidate parse_semver major_version subpath.
Let step := highest_step parse_semver semver_gt major_version subpath.

Definition highest_inv (seen : list string) (h : option (string * SemVer)) : Prop :=
  (h = None -> forall t, In t seen -> cand t = false) /\
  (forall t v, h = Some (t, v) ->
     In t seen /\ get_semantic_version_from_tag parse_semver t subpath = Some v /\
     sv_major v = major_version /\
     forall t' v', In t' seen -> get_semantic_version_from_tag parse_semver t' subpath = Some v' ->
                   sv_major v' = major_version -> semver_gt v' v = false).

Lemma highest_step_none seen h x :
  (h = None -> forall t, In t seen -> cand t = false) ->
  step h x = None -> forall t, In t (seen ++ [x]) -> cand t = false.
Proof.
  intros Hn Hs t Ht. unfold step, highest_step in Hs.
  unfold cand, is_version_candidate.
  destruct (get_semantic_version_from_tag parse_semver x subpath) as [vx|] eqn:Hx.
  - destruct (Nat.eqb_spec (sv_major vx) major_version) as [E|E]; simpl in Hs.
    + destruct h as [[t1 v1]|]; [destruct (semver_gt vx v1); discriminate | discriminate].
    + apply in_app_or in Ht as [Ht|[<-|[]]].
      * apply Hn; assumption.
      * rewrite Hx. apply Nat.eqb_neq, E.
  - apply in_app_or in Ht as [Ht|[<-|[]]].
    + apply Hn; assumption.
    + rewrite Hx. reflexivity.
Qed.

Lemma highest_fold_none l h seen :
  (h = None -> forall t, In t seen -> cand t = false) ->
  fold_left step l h = None -> forall t, In t (seen ++ l) -> cand t = false.
Proof.
  revert h seen. induction l as [|x l IH]; intros h seen Hn Hf t Ht; simpl in Hf.
  - rewrite app_nil_r in Ht. apply Hn; assumption.
  - change (x :: l) with ([x] ++ l) in Ht. rewrite (app_assoc seen [x] l) in Ht. revert t Ht. apply (IH (step h x)); [|assumption].
    intros Hs. apply (highest_step_none seen h x Hn Hs).
Qed.

Lemma highest_fold_some_cand l h seen t v :
  (forall t v, h = Some (t, v) -> In t seen /\ cand t = true) ->
  fold_left step l h = Some (t, v) -> In t (seen ++ l) /\ cand t = true.
Proof.
  revert h seen. induction l as [|x l IH]; intros h seen Hh Hf; simpl in Hf.
  - rewrite app_nil_r. eapply Hh; exact Hf.
  - change (x :: l) with ([x] ++ l). rewrite (app_assoc seen [x] l). apply (IH (step h x)); [|assumption].
    intros t0 v0 Hs. unfold step, highest_step in Hs.
    destruct (get_semantic_version_from_tag parse_semver x subpath) as [vx|] eqn:Hx.
    + destruct (Nat.eqb_spec (sv_major vx) major_version) as [E|E]; simpl in Hs.
      * assert (Hxc : cand x = true) by (unfold cand, is_version_candidate; rewrite Hx; apply Nat.eqb_eq, E).
        destruct h as [[t1 v1]|].
        -- destruct (semver_gt vx v1).
           ++ inversion Hs; subst. split; [apply in_or_app; right; left; reflexivity | exact Hxc].
           ++ destruct (Hh t0 v0 Hs) as [Hi Hc]. split; [apply in_or_app; left; exact Hi | exact Hc].
        -- inversion Hs; subst. split; [apply in_or_app; right; left; reflexivity | exact Hxc].
      * destruct (Hh t0 v0 Hs) as [Hi Hc]. split; [apply in_or_app; left; exact Hi | exact Hc].
    + destruct (Hh t0 v0 Hs) as [Hi Hc]. split; [apply in_or_app; left; exact Hi | exact Hc].
Qed.

Hypothesis semver_gt_trans : forall a b c, semver_gt a b = true -> semver_gt b c = true ->
                                          semver_gt a c = true.
Hypothesis semver_gt_irrefl : forall a, semver_gt a a = false.

Lemma highest_step_inv seen h x : highest_inv seen h -> highest_inv (seen ++ [x]) (step h x).
Proof.
  intros [Hn Hs]. split; [apply highest_step_none; assumption|].
  intros t v Hst. unfold step, highest_step in Hst.
  assert (Hin_l : forall y, In y seen -> In y (seen ++ [x])) by (intros; apply in_or_app; auto).
  assert (Hin_x : In x (seen ++ [x])) by (apply in_or_app; right; left; reflexivity).
  destruct (get_semantic_version_from_tag parse_semver x subpath) as [vx|] eqn:Hx.
  - destruct (Nat.eqb_spec (sv_major vx) major_version) as [E|E]; simpl in Hst.
    + destruct h as [[t1 v1]|].
      * destruct (semver_gt vx v1) eqn:Hgt.
        -- inversion Hst; subst t v.
           destruct (Hs t1 v1 eq_refl) as [_ [_ [_ Hmax]]].
           split; [exact Hin_x|]. split; [exact Hx|]. split; [exact E|].
           intros t' v' Ht' Hp Hm. apply in_app_or in Ht' as [Ht'|[<-|[]]].
           ++ destruct (semver_gt v' vx) eqn:G; [|reflexivity].
              pose proof (semver_gt_trans _ _ _ G Hgt) as G'.
              rewrite (Hmax t' v' Ht' Hp Hm) in G'. discriminate G'.
           ++ rewrite Hx in Hp. inversion Hp; subst. apply semver_gt_irrefl.
        -- destruct (Hs t v Hst) as [Hi [Hp [Hm Hmax]]].
           split; [apply Hin_l, Hi|]. split; [exact Hp|]. split; [exact Hm|].
           intros t' v' Ht' Hp' Hm'. apply in_app_or in Ht' as [Ht'|[<-|[]]].
           ++ apply (Hmax t' v'); assumption.
           ++ rewrite Hx in Hp'. inversion Hp'; subst v'. inversion Hst; subst. exact Hgt.
      * inversion Hst; subst t v.
        split; [exact Hin_x|]. split; [exact Hx|]. split; [exact E|].
        intros t' v' Ht' Hp Hm. apply in_app_or in Ht' as [Ht'|[<-|[]]].
        -- exfalso. pose proof (Hn eq_refl t' Ht') as Hc.
           unfold cand, is_version_candidate in Hc. rewrite Hp in Hc.
           apply Nat.eqb_neq in Hc. contradiction.
        -- rewrite Hx in Hp. inversion Hp; subst. apply semver_gt_irrefl.
    + destruct (Hs t v Hst) as [Hi [Hp [Hm Hmax]]].
      split; [apply Hin_l, Hi|]. split; [exact Hp|]. split; [exact Hm|].
      intros t' v' Ht' Hp' Hm'. apply in_app_or in Ht' as [Ht'|[<-|[]]].
      * apply (Hmax t' v'); assumption.
      * rewrite Hx in Hp'. inversion Hp'; subst. contradiction.
  - destruct (Hs t v Hst) as [Hi [Hp [Hm Hmax]]].
    split; [apply Hin_l, Hi|]. split; [exact Hp|]. split; [exact Hm|].
    intros t' v' Ht' Hp' Hm'. apply in_app_or in Ht' as [Ht'|[<-|[]]].
    + apply (Hmax t' v'); assumption.
    + rewrite Hx in Hp'. discriminate.
Qed.

Lemma highest_fold_inv l h seen : highest_inv seen h -> highest_inv (seen ++ l) (fold_left step l h).
Proof.
  revert h seen. induction l as [|x l IH]; intros h seen Hi; simpl.
  - rewrite app_nil_r. exact Hi.
  - change (x :: l) with ([x] ++ l). rewrite (app_assoc seen [x] l). apply IH, highest_step_inv, Hi.
Qed.

End HighestTag.

Lemma get_highest_semver_tag_none parse gt tags mv sp :
  get_highest_semver_tag parse gt tags mv sp = None <->
  forall t, In t tags -> startswith t (semver_tag_prefix sp) = true ->
            is_version_candidate parse mv sp t = false.
Proof.
  unfold get_highest_semver_tag; cbv zeta; fold (semver_tag_prefix sp).
  set (filtered := filter (fun t => startswith t (semver_tag_prefix sp)) tags).
  assert (Hf : forall t, In t filtered <-> In t tags /\ startswith t (semver_tag_prefix sp) = true)
    by (intros t; exact (filter_In _ t tags)).
  split.
  - intros H t Ht Hp.
    destruct (fold_left (highest_step parse gt mv sp) filtered None) as [[t0 v0]|] eqn:E;
      [discriminate|].
    apply (highest_fold_none parse gt mv sp filtered None [] (fun _ t H => match H with end) E).
    apply Hf; auto.
  - intros H.
    destruct (fold_left (highest_step parse gt mv sp) filtered None) as [[t0 v0]|] eqn:E;
      [|reflexivity].
    destruct (highest_fold_some_cand parse gt mv sp filtered None [] t0 v0
                (fun _ _ H => ltac:(discriminate H)) E) as [Hin Hc].
    apply Hf in Hin as [Hin Hp]. rewrite (H t0 Hin Hp) in Hc. discriminate.
Qed.

(** [_get_highest_semver_tag], for an order [>] of versions that is
    transitive and irreflexive: there is no tag exactly when no tag name
    has the prefix [<subpath>/v] (or [v]) and parses to a version of the
    requested major version; a tag that is returned is such a tag name,
    and no such tag name parses to a greater version. *)
Theorem get_highest_semver_tag_spec (parse_semver : string -> option SemVer)
    (semver_gt : SemVer -> SemVer -> bool) (tag_names : list string) (major_version : nat)
    (subpath : option string) :
  (forall a b c, semver_gt a b = true -> semver_gt b c = true -> semver_gt a c = true) ->
  (forall a, semver_gt a a = false) ->
  (get_highest_semver_tag parse_semver semver_gt tag_names major_version subpath = None <->
   forall t, In t tag_names -> startswith t (semver_tag_prefix subpath) = true ->
             is_version_candidate parse_semver major_version subpath t = false) /\
  (forall t, get_highest_semver_tag parse_semver semver_gt tag_names major_version subpath = Some t ->
   In t tag_names /\ startswith t (semver_tag_prefix subpath) = true /\
   exists v, get_semantic_version_from_tag parse_semver t subpath = Some v /\
             sv_major v = major_version /\
             forall t' v', In t' tag_names -> startswith t' (semver_tag_prefix subpath) = true ->
                           get_semantic_version_from_tag parse_semver t' subpath = Some v' ->
                           sv_major v' = major_version -> semver_gt v' v = false).
Proof.
  intros Htr Hirr. split; [apply get_highest_semver_tag_none|].
  intros t. unfold get_highest_semver_tag; cbv zeta; fold (semver_tag_prefix subpath).
  set (filtered := filter (fun t => startswith t (semver_tag_prefix subpath)) tag_names).
  assert (Hf : forall t, In t filtered <-> In t tag_names /\ startswith t (semver_tag_prefix subpath) = true)
    by (intros t'; exact (filter_In _ t' tag_names)).
  destruct (fold_left (highest_step parse_semver semver_gt major_version subpath) filtered None)
    as [[t0 v0]|] eqn:E; [|discriminate].
  intros H; inversion H; subst t0.
  assert (Hi0 : highest_inv parse_semver semver_gt major_version subpath [] None)
    by (split; [intros _ t' [] | intros t' v' Hc; discriminate]).
  destruct (highest_fold_inv parse_semver semver_gt major_version subpath Htr Hirr filtered None []
              Hi0) as [_ Hs].
  rewrite E in Hs. destruct (Hs t v0 eq_refl) as [Hin [Hp [Hm Hmax]]].
  apply Hf in Hin as [Hin Hpre].
  split; [exact Hin|]. split; [exact Hpre|]. exists v0. split; [exact Hp|]. split; [exact Hm|].
  intros t' v' Ht' Hpre' Hp' Hm'. apply (Hmax t' v'); [apply Hf; auto | exact Hp' | exact Hm'].
Qed.

(** Witness: among [v1.0.0], [v1.2.0], [v2.0.0], [vx], [w1.9.9] and
    [v1.1.0], the highest tag of major version 1 is [v1.2.0]. *)
Lemma get_highest_semver_tag_spec_witness :
  In "v1.2.0"%string ["v1.0.0"; "v1.2.0"; "v2.0.0"; "vx"; "w1.9.9"; "v1.1.0"]%string /\
  startswith "v1.2.0" (semver_tag_prefix None) = true /\
  exists v, get_semantic_version_from_tag parse_semver_example "v1.2.0" None = Some v /\
            sv_major v = 1 /\
            forall t' v', In t' ["v1.0.0"; "v1.2.0"; "v2.0.0"; "vx"; "w1.9.9"; "v1.1.0"]%string ->
                          startswith t' (semver_tag_prefix None) = true ->
                          get_semantic_version_from_tag parse_semver_example t' None = Some v' ->
                          sv_major v' = 1 -> core_gt v' v = false.
Proof.
  apply (proj2 (get_highest_semver_tag_spec parse_semver_example core_gt
    ["v1.0.0"; "v1.2.0"; "v2.0.0"; "vx"; "w1.9.9"; "v1.1.0"]%string 1 None
    (fun a b c H1 H2 => ltac:(unfold core_gt in *; apply Nat.ltb_lt in H1, H2; apply Nat.ltb_lt; lia))
    (fun a => Nat.ltb_irrefl _))).
  vm_compute. reflexivity.
Defined.

Lemma first_tag_none parse gt tags sp majors :
  (forall mv t, In mv majors -> In t tags -> startswith t (semver_tag_prefix sp) = true ->
                is_version_candidate parse mv sp t = false) ->
  first_tag parse gt tags sp majors = None.
Proof.
  induction majors as [|mv majors IH]; intros H; simpl; [reflexivity|].
  rewrite (proj2 (get_highest_semver_tag_none parse gt tags mv sp)).
  - apply IH. intros mv' t Hm; apply H; right; exact Hm.
  - intros t; apply H; left; reflexivity.
Qed.

(** [_get_golang_version] when neither the tags on the commit nor the tags
    reachable from it give a version of a major version to try: the
    version is [v<N or 0>.0.0-<UTC time of the commit>-<first 12
    characters of its id>], with [N] the major version read from the
    module name. *)
Theorem get_golang_version_untagged (parse_semver : string -> option SemVer)
    (semver_gt : SemVer -> SemVer -> bool) (points_at merged : list string) (commit : Commit)
    (module_name : string) (app_dir : RootedPath) :
  (forall mv t, In mv (major_versions_to_try module_name) -> In t (points_at ++ merged) ->
     startswith t (semver_tag_prefix (app_dir_subpath app_dir)) = true ->
     is_version_candidate parse_semver mv (app_dir_subpath app_dir) t = false) ->
  get_golang_version parse_semver semver_gt points_at merged commit module_name app_dir =
  Ok ("v" ++ match module_major_version module_name with
             | Some n => nat_to_string n
             | None => "0"
             end ++ ".0.0-" ++ utc_timestamp (committed_date commit) ++ "-" ++
      substring 0 12 (hexsha commit))%string.
Proof.
  intros H. unfold get_golang_version.
  rewrite !first_tag_none
    by (intros mv t Hm Ht; apply H; [exact Hm | apply in_or_app; (left + right); exact Ht]).
  unfold get_golang_pseudo_version.
  destruct (module_major_version module_name) as [[|n]|]; reflexivity.
Qed.

(** Witness: a module [example.com/a/v3] in a repository without tags. *)
Lemma get_golang_version_untagged_witness :
  get_golang_version parse_semver_example core_gt [] ["w1.0.0"]%string
    (mkCommit "abcdef0123456789abcdef0123456789abcdef01" 1704164645%Z)
    "example.com/a/v3" (mkRootedPath ["r"] ["r"])
  = Ok "v3.0.0-20240102030405-abcdef012345".
Proof.
  rewrite (get_golang_version_untagged parse_semver_example core_gt [] ["w1.0.0"]%string
    (mkCommit "abcdef0123456789abcdef0123456789abcdef01" 1704164645%Z)
    "example.com/a/v3" (mkRootedPath ["r"] ["r"])).
  - vm_compute. reflexivity.
  - intros mv t Hm Ht. simpl in Ht. destruct Ht as [<-|[]]. vm_compute. discriminate.
Defined.

(* ------------------------------------------------------------------ *)
(** ** The version of a local replacement *)

Lemma last_char_app a b : b <> ""%string -> last_char (a ++ b) = last_char b.
Proof.
  intros Hb. unfold last_char. rewrite list_ascii_of_string_app, rev_app_distr.
  destruct b as [|c b]; [contradiction|]. cbn [list_ascii_of_string rev].
  destruct (rev (list_ascii_of_string b)); reflexivity.
Qed.

Lemma last_char_exists t : t <> ""%string -> exists c, last_char t = Some c.
Proof.
  unfold last_char. destruct t as [|x t]; [contradiction|]. intros _.
  cbn [list_ascii_of_string rev].
  destruct (rev (list_ascii_of_string t)); eexists; reflexivity.
Qed.

Lemma last_char_not_slash t c :
  last_char t = Some c -> ends_with_slash t = false -> c <> "/"%char.
Proof.
  unfold last_char, ends_with_slash. intros H E ->.
  destruct (rev (list_ascii_of_string t)); [discriminate|].
  injection H as ->. discriminate E.
Qed.

Lemma string_length_app a b : String.length (a ++ b) = (String.length a + String.length b)%nat.
Proof. induction a as [|c a IH]; simpl; [reflexivity | now rewrite IH]. Qed.

Lemma prefix_split old s :
  String.prefix old s = true ->
  s = (old ++ substring (String.length old) (String.length s - String.length old) s)%string.
Proof.
  revert s; induction old as [|a o IH]; intros s H.
  - simpl. rewrite Nat.sub_0_r. clear H.
    induction s as [|c s IHs]; simpl; [reflexivity | f_equal; exact IHs].
  - destruct s as [|b s]; [discriminate|]. simpl in H.
    destruct (ascii_dec a b) as [<-|]; [|discriminate]. simpl. f_equal. apply IH, H.
Qed.

Lemma startswith_nonempty t p : startswith t p = true -> p <> ""%string -> t <> ""%string.
Proof. intros H Hp ->. destruct p; [contradiction | discriminate H]. Qed.

(** Removing every occurrence of [old] from a string whose last
    character [old] does not end with leaves that character. *)
Lemma replace_all_fuel_nonempty old c :
  old <> ""%string -> last_char old <> Some c ->
  forall fuel s, (String.length s <= fuel)%nat -> last_char s = Some c ->
  replace_all_fuel fuel old "" s <> ""%string.
Proof.
  intros Ho Hoc. induction fuel as [|f IH]; intros s Hl Hs.
  - destruct s; [discriminate Hs | simpl in Hl; lia].
  - destruct s as [|x s']; [discriminate Hs|].
    cbn [replace_all_fuel].
    destruct (String.prefix old (String x s')) eqn:Hp; [|discriminate].
    pose proof (prefix_split old _ Hp) as Hsplit.
    remember (substring (String.length old) (String.length (String x s') - String.length old)
                        (String x s')) as rest eqn:Er.
    cbn [append]. apply IH.
    + apply (f_equal String.length) in Hsplit. rewrite string_length_app in Hsplit.
      destruct old; [contradiction|]. simpl in Hsplit, Hl |- *. lia.
    + destruct (string_dec rest "") as [E|E].
      * rewrite E, str_app_nil_r in Hsplit. rewrite <- Hsplit in Hoc. contradiction.
      * rewrite Hsplit, last_char_app in Hs by exact E. exact Hs.
Qed.

Lemma first_tag_some parse gt tags sp majors t mv :
  first_tag parse gt tags sp majors = Some (t, mv) ->
  In t tags /\ startswith t (semver_tag_prefix sp) = true /\
  exists v, get_semantic_version_from_tag parse t sp = Some v.
Proof.
  induction majors as [|m majors IH]; simpl; [discriminate|].
  destruct (get_highest_semver_tag parse gt tags m sp) as [t0|] eqn:Eh; [|exact IH].
  intros H; injection H as <- <-.
  unfold get_highest_semver_tag in Eh. cbv zeta in Eh. fold (semver_tag_prefix sp) in Eh.
  destruct (fold_left _ _ None) as [[t1 v1]|] eqn:Ef; [|discriminate]. injection Eh as <-.
  destruct (highest_fold_some_cand parse gt m sp _ None [] t1 v1
              (fun t v (E : None = Some (t, v)) => ltac:(discriminate E)) Ef) as [Hin Hc].
  simpl in Hin. apply filter_In in Hin as [Hin Hpre].
  split; [exact Hin | split; [exact Hpre|]].
  unfold is_version_candidate in Hc.
  destruct (get_semantic_version_from_tag parse t1 sp) as [v|]; [eauto | discriminate].
Qed.

(** [_get_golang_version] always returns a version, and never an empty
    one, when no tag on the commit ends with [/]. *)
Lemma get_golang_version_ok parse gt points_at merged commit name app_dir :
  (forall t, In t points_at -> ends_with_slash t = false) ->
  exists v, get_golang_version parse gt points_at merged commit name app_dir = Ok v /\
            v <> ""%string.
Proof.
  intros Hslash. unfold get_golang_version.
  destruct (first_tag parse gt points_at (app_dir_subpath app_dir)
              (major_versions_to_try name)) as [[t mv]|] eqn:E1.
  - destruct (first_tag_some _ _ _ _ _ _ _ E1) as [Hin [Hpre _]].
    unfold semver_tag_prefix in Hpre.
    destruct (truthy (app_dir_subpath app_dir)) as [sp|] eqn:Hs.
    + eexists; split; [reflexivity|].
      assert (Ht : t <> ""%string) by
        (apply (startswith_nonempty t _ Hpre); destruct sp; discriminate).
      destruct (last_char_exists t Ht) as [c Hc].
      pose proof (last_char_not_slash t c Hc (Hslash t Hin)) as Hcs.
      unfold str_replace. apply (replace_all_fuel_nonempty _ c); [destruct sp; discriminate | | lia | exact Hc].
      rewrite last_char_app by discriminate. simpl. intros E; injection E as E. congruence.
    + eexists; split; [reflexivity|]. exact (startswith_nonempty t _ Hpre ltac:(discriminate)).
  - destruct (first_tag parse gt merged (app_dir_subpath app_dir)
                (major_versions_to_try name)) as [[t mv]|] eqn:E2.
    + destruct (first_tag_some _ _ _ _ _ _ _ E2) as [_ [_ [v Hv]]].
      unfold get_golang_pseudo_version. rewrite Hv.
      destruct (if truthy (sv_prerelease v) then _ else _) as [sep psv].
      eexists; split; [reflexivity | discriminate].
    + eexists; split; [reflexivity | discriminate].
Qed.

Lemma golang_version_of_repo_ok parse gt repo name app_dir :
  (forall t, In t (fst (fst (repo (rp_root app_dir)))) -> ends_with_slash t = false) ->
  get_golang_version parse gt (fst (fst (repo (rp_root app_dir)))) (snd (fst (repo (rp_root app_dir))))
    (snd (repo (rp_root app_dir))) name app_dir
  = Ok (golang_version_of_repo parse gt repo name app_dir) /\
  golang_version_of_repo parse gt repo name app_dir <> ""%string.
Proof.
  unfold golang_version_of_repo. destruct (repo (rp_root app_dir)) as [[pa mg] cm]; simpl.
  intros H. destruct (get_golang_version_ok parse gt pa mg cm name app_dir H) as [v [E Hv]].
  rewrite E. split; [reflexivity | exact Hv].
Qed.

(** C1 (as amended). Creating modules from parsed toolchain data, with
    the version reifier of the repository, gives each parsed module,
    when it succeeds, a record whose version is empty exactly when the
    parsed module has no replace directive and no (or an empty) version:
    every version replacement, every local replacement (whose version the
    reifier reads from the git repository of the replacement directory)
    and every unreplaced module with a version gets a non-empty version.
    The only assumption is git's rule that no tag name ends with [/]. *)
Theorem create_modules_version_nonempty (parse_semver : string -> option SemVer)
    (semver_gt : SemVer -> SemVer -> bool)
    (repo : list string -> list string * list string * Commit) main dir pms ms :
  (forall root t, In t (fst (fst (repo root))) -> ends_with_slash t = false) ->
  create_modules_from_parsed_data (golang_version_of_repo parse_semver semver_gt repo)
    main dir pms = Ok ms ->
  Forall2 (fun pm m => m_version m = ""%string <->
                       pm_replace pm = None /\ truthy (pm_version pm) = None) pms ms.
Proof.
  intros Hslash H. apply map_result_Forall2 in H.
  induction H; constructor; auto.
  eapply create_module_version_empty; [|eassumption].
  intros n r. apply (golang_version_of_repo_ok parse_semver semver_gt repo n r).
  apply Hslash.
Qed.

(** Witness for C1: a version replacement, a local replacement whose
    directory [d] carries the tag [d/v1.4.0], and an unreplaced module
    without version. *)
Lemma create_modules_version_nonempty_witness :
  create_modules_from_parsed_data
    (golang_version_of_repo parse_semver_example core_gt
       (fun _ => (["d/v1.4.0"], ["d/v1.4.0"],
                  mkCommit "abcdef0123456789abcdef0123456789abcdef01" 1704164645%Z)))
    (mkModule "example.com/a" "example.com/a" "github.com/org/a" "v1.2.3" false)
    (mkRootedPath ["repo"] ["repo"])
    [mkParsedModule "example.com/b" (Some "v1.0.0") false
       (Some (mkParsedModule "example.com/c" (Some "v1.1.0") false None));
     mkParsedModule "example.com/d" None false (Some (mkParsedModule "./d" None false None));
     mkParsedModule "example.com/e" None false None]
  = Ok [mkModule "example.com/c" "example.com/b" "example.com/c" "v1.1.0" false;
     mkModule "example.com/d" "example.com/d" "github.com/org/a/d" "v1.4.0" false;
     mkModule "example.com/e" "example.com/e" "example.com/e" "" false] /\
  Forall2 (fun pm m => m_version m = ""%string <->
                       pm_replace pm = None /\ truthy (pm_version pm) = None)
    [mkParsedModule "example.com/b" (Some "v1.0.0") false
       (Some (mkParsedModule "example.com/c" (Some "v1.1.0") false None));
     mkParsedModule "example.com/d" None false (Some (mkParsedModule "./d" None false None));
     mkParsedModule "example.com/e" None false None]
    [mkModule "example.com/c" "example.com/b" "example.com/c" "v1.1.0" false;
     mkModule "example.com/d" "example.com/d" "github.com/org/a/d" "v1.4.0" false;
     mkModule "example.com/e" "example.com/e" "example.com/e" "" false].
Proof.
  split.
  - vm_compute. reflexivity.
  - apply (create_modules_version_nonempty parse_semver_example core_gt
      (fun _ => (["d/v1.4.0"], ["d/v1.4.0"],
                 mkCommit "abcdef0123456789abcdef0123456789abcdef01" 1704164645%Z))
      (mkModule "example.com/a" "example.com/a" "github.com/org/a" "v1.2.3" false)
      (mkRootedPath ["repo"] ["repo"])).
    + intros root t [<- | []]. reflexivity.
    + vm_compute; reflexivity.
Defined.

(** Counterexample to C1: an unreplaced parsed module without a version
    field becomes a module record whose version is the empty string. *)
Lemma create_modules_version_empty_cex :
  create_modules_from_parsed_data
    (golang_version_of_repo parse_semver_example core_gt
       (fun _ => ([], [], mkCommit "abcdef0123456789abcdef0123456789abcdef01" 1704164645%Z)))
    (mkModule "example.com/a" "example.com/a" "github.com/org/a" "v1.2.3" false)
    (mkRootedPath ["repo"] ["repo"])
    [mkParsedModule "example.com/e" None false None]
  = Ok [mkModule "example.com/e" "example.com/e" "example.com/e" "" false].
Proof. reflexivity. Qed.

(* ------------------------------------------------------------------ *)
(** ** The real path of a local replacement *)

Lemma dotdot_head_true (l : list string) :
  match l with ".." :: _ => true | _ => false end = true -> exists r, l = ".."%string :: r.
Proof.
  intros H. destruct l as [|s r]; [discriminate|]. exists r.
  repeat match type of H with
         | context [match ?x with _ => _ end] => is_var x; destruct x; cbn in H; try discriminate H
         end.
  reflexivity.
Qed.

Lemma rev_head_not_dotdot (acc : list string) :
  ~ In ".."%string acc -> match rev acc with ".." :: _ => true | _ => false end = false.
Proof.
  intros H. destruct (match rev acc with ".." :: _ => true | _ => false end) eqn:E; [|reflexivity].
  apply dotdot_head_true in E as [r E]. exfalso; apply H.
  assert (Hr : In ".."%string (rev acc)) by (rewrite E; apply in_eq).
  apply in_rev in Hr. exact Hr.
Qed.

Lemma normpath_comps_plain b acc l :
  Forall (fun s => s <> ""%string /\ s <> "."%string /\ s <> ".."%string) l ->
  normpath_comps b acc l = acc ++ l.
Proof.
  intros Hl. revert acc. induction Hl as [|c l [H1 [H2 H3]] Hl IH]; intros acc; cbn [normpath_comps].
  - rewrite app_nil_r. reflexivity.
  - apply String.eqb_neq in H1, H2, H3. rewrite H1, H2, H3. cbn [orb negb].
    rewrite IH, <- app_assoc. reflexivity.
Qed.

Lemma normpath_comps_dots acc D rest :
  ~ In ".."%string acc ->
  Forall (fun s => s = "."%string \/ s = ".."%string) D ->
  count_occ string_dec D ".." <= List.length acc ->
  normpath_comps false acc (D ++ rest) =
  normpath_comps false (firstn (List.length acc - count_occ string_dec D "..") acc) rest.
Proof.
  intros Hacc HD. revert acc Hacc. induction HD as [|d D Hd HD IH]; intros acc Hacc Hc.
  - rewrite Nat.sub_0_r, firstn_all. reflexivity.
  - destruct Hd as [->| ->].
    + rewrite count_occ_cons_neq in * by discriminate.
      cbn [app normpath_comps]. change (String.eqb "." "" || String.eqb "." ".") with true.
      cbv iota. apply IH; assumption.
    + rewrite count_occ_cons_eq in * by reflexivity.
      destruct (exists_last (l := acc)) as [l' [x E]]; [intros ->; simpl in Hc; lia|].
      cbn [app normpath_comps]. rewrite (rev_head_not_dotdot acc Hacc).
      assert (Ha : match acc with [] => true | _ => false end = false)
        by (rewrite E; destruct l'; reflexivity).
      rewrite Ha. change (String.eqb ".." "" || String.eqb ".." ".") with false.
      change (negb (String.eqb ".." "..")) with false. cbv iota beta. cbn [negb andb orb].
      rewrite E, removelast_last.
      rewrite E, length_app in Hc. simpl in Hc.
      rewrite IH.
      * rewrite length_app, firstn_app. simpl List.length.
        replace (List.length l' + 1 - S (count_occ string_dec D ".."))
          with (List.length l' - count_occ string_dec D "..") by lia.
        replace (List.length l' - count_occ string_dec D ".." - List.length l') with 0 by lia.
        rewrite firstn_O, app_nil_r. reflexivity.
      * intros Hin. apply Hacc. rewrite E. apply in_or_app. left; exact Hin.
      * lia.
Qed.

Lemma normpath_comps_app b acc l1 l2 :
  normpath_comps b acc (l1 ++ l2) = normpath_comps b (normpath_comps b acc l1) l2.
Proof.
  revert acc. induction l1 as [|c l1 IH]; intros acc; [reflexivity|].
  cbn [app normpath_comps]. destruct (_ || _); [apply IH|]. destruct (_ || _ || _); apply IH.
Qed.

Lemma join_with_cons_nonempty sep x l : x <> ""%string -> join_with sep (x :: l) <> ""%string.
Proof. intros H. destruct l; simpl; destruct x; [contradiction | discriminate | contradiction | discriminate]. Qed.

Lemma go_path_ok_plain s :
  go_path_ok s = true ->
  Forall (fun seg => seg <> ""%string /\ seg <> "."%string /\ seg <> ".."%string) (split_on "/" s).
Proof.
  unfold go_path_ok. intros H. apply Forall_forall. intros seg Hin.
  pose proof (proj1 (forallb_forall _ _) H seg Hin) as Hs.
  apply andb_true_iff in Hs as [H1 H2].
  repeat split; intros ->; discriminate.
Qed.

(** [_create_module] for a local replacement ([=> ./path] or
    [=> ../path]), when the main module's real path is a Go path and the
    replacement path is a run of [.] and [..] segments followed by plain
    ones, with no more [..] than the real path has elements: the real path
    of the module is the main module's real path without one trailing
    element per [..], followed by the plain segments ([os.path.normpath]
    of their concatenation); the name and the original name are the
    declared path, and the version is the one found for the replacement
    directory. *)
Theorem create_module_local_real_path (golang_version : string -> RootedPath -> string)
    (main_module : Module) (main_module_dir : RootedPath) (module replace : ParsedModule)
    (resolved : RootedPath) (D Q : list string) :
  pm_replace module = Some replace ->
  truthy (pm_version replace) = None ->
  join_within_root main_module_dir (pm_path replace) = Ok resolved ->
  go_path_ok (m_real_path main_module) = true ->
  split_on "/" (pm_path replace) = D ++ Q ->
  Forall (fun s => s = "."%string \/ s = ".."%string) D ->
  Forall (fun s => s <> ""%string /\ s <> "."%string /\ s <> ".."%string) Q ->
  count_occ string_dec D ".." <= List.length (split_on "/" (m_real_path main_module)) ->
  create_module golang_version main_module main_module_dir module =
  Ok (mkModule (pm_path module) (pm_path module)
        (match (firstn (List.length (split_on "/" (m_real_path main_module))
                       - count_occ string_dec D "..")
                      (split_on "/" (m_real_path main_module)) ++ Q)%list with
         | [] => "."
         | comps => join_with "/" comps
         end)
        (golang_version (pm_path module) resolved) false).
Proof.
  intros Hr Hv Hj Hok Hsplit HD HQ Hc. unfold create_module.
  rewrite Hr, Hv, Hj. cbn [bind]. do 2 f_equal.
  set (R := split_on "/" (m_real_path main_module)) in *.
  pose proof (go_path_ok_head _ Hok) as [Hs [_ Hne]].
  assert (HR := go_path_ok_plain _ Hok). fold R in HR.
  assert (Hsp : split_on "/" (m_real_path main_module ++ "/" ++ pm_path replace) = R ++ D ++ Q).
  { unfold R, split_on. change ("/" ++ pm_path replace)%string with (String "/" (pm_path replace)).
    rewrite split_on_aux_app. fold (split_on "/" (pm_path replace)). rewrite Hsplit. reflexivity. }
  destruct (m_real_path main_module) as [|ch r] eqn:Em; [contradiction|].
  assert (Hs' : startswith (String ch r ++ "/" ++ pm_path replace) "/" = false).
  { unfold startswith in *.
    change (String ch r ++ "/" ++ pm_path replace)%string with (String ch (r ++ "/" ++ pm_path replace)).
    rewrite prefix_char. rewrite prefix_char in Hs. exact Hs. }
  unfold normpath. rewrite Hs'. simpl (String.eqb (String ch r ++ _) "").
  cbv zeta. cbn [String.eqb negb]. rewrite Hsp.
  rewrite normpath_comps_app, (normpath_comps_plain false [] R) by exact HR. cbn [app].
  rewrite (normpath_comps_dots R D Q).
  2: { rewrite Forall_forall in HR. intros Hin. apply (HR _ Hin). reflexivity. }
  2: exact HD.
  2: exact Hc.
  rewrite (normpath_comps_plain false _ Q) by exact HQ.
  assert (Hall : Forall (fun s => s <> ""%string /\ s <> "."%string /\ s <> ".."%string)
                   (firstn (List.length R - count_occ string_dec D "..") R ++ Q)).
  { apply Forall_app. split; [|exact HQ].
    rewrite Forall_forall in HR |- *. intros x Hx. apply HR.
    rewrite <- (firstn_skipn (List.length R - count_occ string_dec D "..") R).
    apply in_or_app. left; exact Hx. }
  destruct (firstn (List.length R - count_occ string_dec D "..") R ++ Q) as [|x l].
  - reflexivity.
  - inversion Hall as [|? ? [Hx _] _]; subst.
    cbn [String.append]. pose proof (join_with_cons_nonempty "/" x l Hx) as Hj'.
    apply String.eqb_neq in Hj'. rewrite Hj'. reflexivity.
Qed.

(** Witness: [example.com/other => ../other/pkg] next to a main module
    whose real path is [github.com/org/repo/sub]. *)
Lemma create_module_local_real_path_witness :
  create_module (fun _ _ => "v1.0.0"%string)
    (mkModule "github.com/org/repo/sub" "github.com/org/repo/sub" "github.com/org/repo/sub"
              "v1.0.0" true)
    (mkRootedPath ["r"] ["r"; "sub"])
    (mkParsedModule "example.com/other" (Some "v0.1.0") false
       (Some (mkParsedModule "../other/pkg" None false None)))
  = Ok (mkModule "example.com/other" "example.com/other" "github.com/org/repo/other/pkg"
                 "v1.0.0" false).
Proof.
  rewrite (create_module_local_real_path (fun _ _ => "v1.0.0"%string)
    (mkModule "github.com/org/repo/sub" "github.com/org/repo/sub" "github.com/org/repo/sub"
              "v1.0.0" true)
    (mkRootedPath ["r"] ["r"; "sub"])
    (mkParsedModule "example.com/other" (Some "v0.1.0") false
       (Some (mkParsedModule "../other/pkg" None false None)))
    (mkParsedModule "../other/pkg" None false None)
    (mkRootedPath ["r"] ["r"; "other"; "pkg"]) [".."] ["other"; "pkg"]).
  - reflexivity.
  - reflexivity.
  - reflexivity.
  - vm_compute. reflexivity.
  - vm_compute. reflexivity.
  - vm_compute. reflexivity.
  - constructor; [right; reflexivity | constructor].
  - repeat constructor; discriminate.
  - vm_compute. lia.
Defined.

(* ------------------------------------------------------------------ *)
(** ** Module lines of [vendor/modules.txt] *)

Lemma split_ws_aux_app a b cur :
  split_ws_aux (a ++ " " ++ b) cur = split_ws_aux a cur ++ split_ws_aux b "".
Proof.
  revert cur. induction a as [|d a IH]; intros cur; [reflexivity|].
  cbn [String.append split_ws_aux]. destruct (is_space d).
  - rewrite IH, app_assoc. reflexivity.
  - apply IH.
Qed.

Lemma split_ws_aux_token t cur :
  (forall c, In c (list_ascii_of_string t) -> is_space c = false) ->
  split_ws_aux t cur = if String.eqb (cur ++ t) "" then [] else [(cur ++ t)%string].
Proof.
  revert cur. induction t as [|d t IH]; intros cur Ht; cbn [split_ws_aux].
  - rewrite str_app_nil_r. reflexivity.
  - rewrite (Ht d (or_introl eq_refl)), IH by (intros c Hc; apply Ht; right; exact Hc).
    rewrite str_app_assoc. reflexivity.
Qed.

Lemma split_ws_join_tokens (ts : list string) :
  ts <> [] ->
  Forall (fun t => t <> ""%string /\
                   forall c, In c (list_ascii_of_string t) -> is_space c = false) ts ->
  split_ws (join_with " " ts) = ts.
Proof.
  intros Hne Hts. induction Hts as [|t ts [Ht1 Ht2] Hts IH]; [contradiction|].
  unfold split_ws. destruct ts as [|t' ts'].
  - cbn [join_with]. rewrite split_ws_aux_token by exact Ht2.
    simpl (""%string ++ t)%string. apply String.eqb_neq in Ht1. rewrite Ht1. reflexivity.
  - change (join_with " " (t :: t' :: ts')) with (t ++ " " ++ join_with " " (t' :: ts'))%string.
    rewrite split_ws_aux_app, split_ws_aux_token by exact Ht2.
    simpl (""%string ++ t)%string. apply String.eqb_neq in Ht1. rewrite Ht1.
    unfold split_ws in IH. rewrite IH by discriminate. reflexivity.
Qed.

Lemma substring_all s : substring 0 (String.length s) s = s.
Proof. induction s as [|c s IH]; simpl; [reflexivity | rewrite IH; reflexivity]. Qed.

Lemma removeprefix_comment s : removeprefix ("# " ++ s) "# " = s.
Proof.
  unfold removeprefix. simpl. rewrite Nat.sub_0_r. destruct s; apply substring_all.
Qed.

(** [parse_module_line] reads back every module line of the five shapes
    that [go mod vendor] writes ([# name version], [# name => path],
    [# name => new_name new_version], [# name version => path] and
    [# name version => new_name new_version]), when the fields are
    non-empty, have no white space, and only the arrow is [=>]: the
    parsed module is the one the line was written from. *)
Theorem parse_module_line_roundtrip (m : ParsedModule) (fields : list string) :
  vendor_line_fields m = Some fields ->
  Forall (fun t => t <> ""%string /\
                   forall c, In c (list_ascii_of_string t) -> is_space c = false) fields ->
  count_occ string_dec fields "=>" <= 1 ->
  parse_module_line ("# " ++ join_with " " fields) = Ok m.
Proof.
  intros H Ht Hc. unfold vendor_line_fields in H.
  destruct m as [p v [] r]; [discriminate|]. cbn [pm_main pm_version pm_replace pm_path] in H.
  destruct v as [v|], r as [[rp rv [] [rr|]]|]; try destruct rv as [rv|];
    try discriminate H; inversion H; subst fields; clear H;
    unfold parse_module_line; rewrite removeprefix_comment, split_ws_join_tokens by
      first [discriminate | exact Ht];
    cbn [parse_module_parts]; try reflexivity.
  assert (Hv : v <> "=>"%string).
  { intros ->. simpl in Hc.
    repeat match type of Hc with context [string_dec ?a ?b] => destruct (string_dec a b) end;
    simpl in Hc; lia. }
  apply String.eqb_neq in Hv. rewrite Hv. reflexivity.
Qed.

(** Witness: the line [# example.com/a v1.0.0 => ./local]. *)
Lemma parse_module_line_roundtrip_witness :
  parse_module_line ("# " ++ join_with " " ["example.com/a"; "v1.0.0"; "=>"; "./local"])%string =
  Ok (mkParsedModule "example.com/a" (Some "v1.0.0") false
        (Some (mkParsedModule "./local" None false None))).
Proof.
  apply parse_module_line_roundtrip.
  - reflexivity.
  - repeat constructor; try discriminate; intros c Hc; simpl in Hc;
      repeat (destruct Hc as [<-|Hc]; [reflexivity|]); contradiction.
  - vm_compute. lia.
Defined.

(* ------------------------------------------------------------------ *)
(** ** The repository name *)

Lemma drop_slashes_repeat k l : drop_slashes (repeat "/"%char k ++ l) = drop_slashes l.
Proof. induction k as [|k IH]; [reflexivity|]. cbn [repeat app drop_slashes]. exact IH. Qed.

Lemma length_list_ascii_of_string s : List.length (list_ascii_of_string s) = String.length s.
Proof. induction s as [|c s IH]; simpl; [reflexivity | now rewrite IH]. Qed.

Lemma rstrip_slash_plain p k :
  (forall q, p <> (q ++ "/")%string) ->
  rstrip_slash (p ++ string_of_list_ascii (repeat "/"%char k)) = p.
Proof.
  intros Hp. unfold rstrip_slash.
  rewrite list_ascii_of_string_app, list_ascii_of_string_of_list_ascii, rev_app_distr, rev_repeat,
    drop_slashes_repeat.
  destruct (rev (list_ascii_of_string p)) as [|c r] eqn:E.
  - simpl. rewrite <- (string_of_list_ascii_of_string p).
    rewrite <- (rev_involutive (list_ascii_of_string p)), E. reflexivity.
  - cbn [drop_slashes]. destruct (Ascii.eqb_spec c "/"%char) as [->|Ne].
    + exfalso. apply (Hp (string_of_list_ascii (rev r))).
      rewrite <- (string_of_list_ascii_of_string p).
      rewrite <- (rev_involutive (list_ascii_of_string p)), E.
      cbn [rev]. rewrite string_of_list_ascii_app. reflexivity.
    + rewrite <- E, rev_involutive. apply string_of_list_ascii_of_string.
Qed.

Lemma removesuffix_app s suffix :
  suffix <> ""%string -> removesuffix (s ++ suffix) suffix = s.
Proof.
  intros Hne. unfold removesuffix.
  rewrite list_ascii_of_string_app, length_app, !length_list_ascii_of_string.
  rewrite Nat.add_sub. apply String.eqb_neq in Hne. rewrite Hne. cbn [negb andb].
  rewrite (proj2 (Nat.leb_le _ _)) by lia. cbn [andb].
  rewrite <- (length_list_ascii_of_string s).
  rewrite skipn_app, skipn_all, Nat.sub_diag, skipn_O. cbn [app].
  rewrite string_of_list_ascii_of_string, String.eqb_refl.
  rewrite firstn_app, firstn_all, Nat.sub_diag, firstn_O, app_nil_r.
  apply string_of_list_ascii_of_string.
Qed.

Lemma removesuffix_absent s suffix :
  (forall q, s <> (q ++ suffix)%string) -> removesuffix s suffix = s.
Proof.
  intros Hs. unfold removesuffix.
  destruct (_ && _ && _) eqn:E; [|reflexivity].
  exfalso. apply andb_true_iff in E as [_ E]. apply String.eqb_eq in E.
  set (n := (List.length (list_ascii_of_string s) - String.length suffix)%nat) in E.
  apply (Hs (string_of_list_ascii (firstn n (list_ascii_of_string s)))).
  rewrite <- E, <- string_of_list_ascii_app, firstn_skipn.
  symmetry. apply string_of_list_ascii_of_string.
Qed.

(** [_get_repository_name]: the repository name is the host name
    followed by the path of the origin URL without its trailing slashes
    and without one [.git] suffix; a path that ends neither with [/] nor
    with [.git] is kept as it is. *)
Theorem get_repository_name_spec (hostname p : string) (k : nat) :
  get_repository_name hostname (p ++ ".git" ++ string_of_list_ascii (repeat "/"%char k)) =
  (hostname ++ p)%string /\
  ((forall q, p <> (q ++ "/")%string) -> (forall q, p <> (q ++ ".git")%string) ->
   get_repository_name hostname (p ++ string_of_list_ascii (repeat "/"%char k)) =
   (hostname ++ p)%string).
Proof.
  unfold get_repository_name. split.
  - rewrite <- str_app_assoc, rstrip_slash_plain.
    + rewrite removesuffix_app by discriminate. reflexivity.
    + intros q E. apply (f_equal (fun s => rev (list_ascii_of_string s))) in E.
      rewrite !list_ascii_of_string_app, !rev_app_distr in E. discriminate E.
  - intros Hslash Hgit. rewrite rstrip_slash_plain by exact Hslash.
    rewrite removesuffix_absent by exact Hgit. reflexivity.
Qed.

(** Witness: [github.com] and [/org/repo//]. *)
Lemma get_repository_name_spec_witness :
  get_repository_name "github.com" ("/org/repo" ++ string_of_list_ascii (repeat "/"%char 2)) =
  "github.com/org/repo"%string.
Proof.
  apply (proj2 (get_repository_name_spec "github.com" "/org/repo" 2)).
  - intros q E. apply (f_equal (fun s => rev (list_ascii_of_string s))) in E.
    rewrite list_ascii_of_string_app, rev_app_distr in E. discriminate E.
  - intros q E. apply (f_equal (fun s => rev (list_ascii_of_string s))) in E.
    rewrite list_ascii_of_string_app, rev_app_distr in E. discriminate E.
Defined.
